(** * ssh2-cpp: SFTP file streams and session lifetime

    A shallow embedding of [ssh/stream.hpp] (open-mode translation, the
    stream devices, [detail::seek], [detail::read], [detail::write]) and of
    [ssh/detail/session_state.hpp] (the RAII session guard), together with
    the properties their specification states about them.

    C++ exceptions are values of [exn]; a function that may throw returns an
    [outcome]; a function that calls into libssh2 runs in the monad [M],
    which threads the state of the library (and the log of the calls made to
    it) through the computation and keeps that state when an exception
    propagates. *)

From Stdlib Require Import ZArith List Ascii String Bool Lia.
Import ListNotations.
Local Open Scope string_scope.
Local Open Scope Z_scope.

(** ** Exceptions and outcomes *)

Inductive exn : Type :=
| invalid_argument (what : string)          (* std::invalid_argument *)
| logic_error (what : string)               (* std::logic_error *)
| bad_alloc                                 (* std::bad_alloc *)
| system_error (ec : Z) (what : string)     (* boost::system::system_error *)
| ssh_error (code : Z) (sftp : option (Z * string))
    (file_name : option string)
    (* ssh::exception::ssh_error with the session's error code and, when one
       is attached, its errinfo_file_name.  [sftp] is there when the object
       is an sftp::sftp_error: its SFTP error code and the
       errinfo_api_function attached to it. *)
| assertion_failed (expr : string).         (* not an exception: the abort of
                                               a failed assert *)

Inductive outcome (A : Type) : Type :=
| Return (a : A)
| Throw (e : exn).
Arguments Return {A} a.
Arguments Throw {A} e.

Definition obind {A B} (c : outcome A) (k : A -> outcome B) : outcome B :=
  match c with
  | Return a => k a
  | Throw e => Throw e
  end.

(** The state-and-exception monad: the state survives a throw. *)
Definition M (W A : Type) : Type := W -> outcome A * W.

Definition ret {W A} (a : A) : M W A := fun w => (Return a, w).
Definition throw {W A} (e : exn) : M W A := fun w => (Throw e, w).
Definition bind {W A B} (c : M W A) (k : A -> M W B) : M W B :=
  fun w => match c w with
           | (Return a, w') => k a w'
           | (Throw e, w') => (Throw e, w')
           end.
Definition lift {W A} (c : outcome A) : M W A := fun w => (c, w).

(** [try { c } catch (boost::exception& e) { h(e); throw; }] *)
Definition rethrowing {W A} (c : M W A) (h : exn -> exn) : M W A :=
  fun w => match c w with
           | (Return a, w') => (Return a, w')
           | (Throw e, w') => (Throw (h e), w')
           end.

Declare Scope cpp_scope.
Delimit Scope cpp_scope with cpp.
Notation "x <- c ;; k" := (bind c (fun x => k))
  (at level 61, c at next level, right associativity) : cpp_scope.
Notation "c ;;; k" := (bind c (fun _ => k))
  (at level 61, right associativity) : cpp_scope.
Notation "'try*' x := c 'in' k" := (obind c (fun x => k))
  (at level 61, x name, c at next level, right associativity) : cpp_scope.
Local Open Scope cpp_scope.

(** A C++ integer used as a condition: true when non-zero. *)
Definition truthy (x : Z) : bool := negb (x =? 0).

(** ** Open modes *)

(** The four [std::ios_base::openmode] constants that [openmode] reuses, and
    the two that [translate_flags] inspects.  Their values are chosen by the
    standard library implementation, so they are a parameter of the model. *)
Record ios_base : Type := {
  ios_in : Z;
  ios_out : Z;
  ios_ate : Z;
  ios_app : Z;
  ios_trunc : Z;
  ios_binary : Z
}.

(** libstdc++ ([_S_app = 1], [_S_ate = 2], [_S_bin = 4], [_S_in = 8],
    [_S_out = 16], [_S_trunc = 32]) and the Microsoft library. *)
Definition libstdcxx : ios_base :=
  {| ios_in := 8; ios_out := 16; ios_ate := 2; ios_app := 1;
     ios_trunc := 32; ios_binary := 4 |}.
Definition msvc : ios_base :=
  {| ios_in := 1; ios_out := 2; ios_ate := 4; ios_app := 8;
     ios_trunc := 16; ios_binary := 32 |}.

(** [LIBSSH2_FXF_*] of libssh2_sftp.h: the SSH_FXF_* bits of the SFTP
    protocol. *)
Definition LIBSSH2_FXF_READ : Z := 1.
Definition LIBSSH2_FXF_WRITE : Z := 2.
Definition LIBSSH2_FXF_APPEND : Z := 4.
Definition LIBSSH2_FXF_CREAT : Z := 8.
Definition LIBSSH2_FXF_TRUNC : Z := 16.
Definition LIBSSH2_FXF_EXCL : Z := 32.

(** [LIBSSH2_SFTP_S_IRUSR | LIBSSH2_SFTP_S_IWUSR | LIBSSH2_SFTP_S_IRGRP |
    LIBSSH2_SFTP_S_IROTH], i.e. 0644, and [LIBSSH2_SFTP_OPENFILE]. *)
Definition mode_0644 : Z := Z.lor (Z.lor (Z.lor 256 128) 32) 4.
Definition LIBSSH2_SFTP_OPENFILE : Z := 0.

(** A set of bits [s] contains the flag [f]. *)
Definition contains (s f : Z) : bool := truthy (Z.land s f).

Module openmode.
Section Values.
Variable std : ios_base.

Definition in_ : Z := ios_in std.
Definition out : Z := ios_out std.
Definition app : Z := ios_app std.
Definition trunc : Z := ios_trunc std.
Definition nocreate : Z := 64.   (* 0x40 *)
Definition noreplace : Z := 128. (* 0x80 *)
End Values.
End openmode.

(** [std::ios_base::openmode] is a bitmask type: its elements are non-zero
    and pairwise disjoint.  [nocreate] and [noreplace] are meant to be two
    further elements, which holds when 0x40 and 0x80 are free. *)
Definition elements (std : ios_base) : list Z :=
  [openmode.in_ std; openmode.out std; openmode.app std; openmode.trunc std;
   openmode.nocreate; openmode.noreplace].

Fixpoint pairwise_disjoint (l : list Z) : bool :=
  match l with
  | [] => true
  | x :: r => forallb (fun y => Z.land x y =? 0) r && pairwise_disjoint r
  end.

Definition bitmask_ok (std : ios_base) : bool :=
  forallb (fun x => 0 <? x) (elements std) && pairwise_disjoint (elements std).

Section Translation.
Variable std : ios_base.

Let in_ := openmode.in_ std.
Let out := openmode.out std.
Let app := openmode.app std.
Let trunc := openmode.trunc std.
Let nocreate := openmode.nocreate.
Let noreplace := openmode.noreplace.

(** [detail::translate_flags] *)
Definition translate_flags (std_mode : Z) : outcome Z :=
  let our_mode := 0 in
  let our_mode :=
    if truthy (Z.land std_mode (ios_in std)) then Z.lor our_mode in_
    else our_mode in
  let our_mode :=
    if truthy (Z.land std_mode (ios_out std)) then Z.lor our_mode out
    else our_mode in
  if truthy (Z.land std_mode (ios_ate std))
  then Throw (invalid_argument "ate flag not yet supported")
  else
    let our_mode :=
      if truthy (Z.land std_mode (ios_app std)) then Z.lor our_mode app
      else our_mode in
    let our_mode :=
      if truthy (Z.land std_mode (ios_trunc std)) then Z.lor our_mode trunc
      else our_mode in
    Return our_mode.

(** [detail::openmode_to_libssh2_flags] *)
Definition openmode_to_libssh2_flags (opening_mode : Z) : outcome Z :=
  let flags := 0 in
  let flags :=
    if truthy (Z.land opening_mode in_) then Z.lor flags LIBSSH2_FXF_READ
    else flags in
  if truthy (Z.land opening_mode out) then
    let flags := Z.lor flags LIBSSH2_FXF_WRITE in
    if truthy (Z.land opening_mode in_) then
      (* in flag suppresses creation *)
      if truthy (Z.land opening_mode trunc) then
        (* but trunc flag unsuppresses it again *)
        try* flags :=
          (if negb (truthy (Z.land opening_mode nocreate)) then
             (* unless nocreate given in which case just truncate existing *)
             let flags := Z.lor flags LIBSSH2_FXF_CREAT in
             if truthy (Z.land opening_mode noreplace)
             then Return (Z.lor flags LIBSSH2_FXF_EXCL)
             else Return flags
           else if truthy (Z.land opening_mode noreplace) then
             Throw (invalid_argument "Cannot combine nocreate and noreplace")
           else Return flags) in
        Return (Z.lor flags LIBSSH2_FXF_TRUNC)
      else Return flags
    else
      try* flags :=
        (if negb (truthy (Z.land opening_mode nocreate)) then
           let flags := Z.lor flags LIBSSH2_FXF_CREAT in
           if truthy (Z.land opening_mode noreplace)
           then Return (Z.lor flags LIBSSH2_FXF_EXCL)
           else Return flags
         else if truthy (Z.land opening_mode noreplace) then
           Throw (invalid_argument "Cannot combine nocreate and noreplace")
         else Return flags) in
      if truthy (Z.land opening_mode app)
      then Return (Z.lor flags LIBSSH2_FXF_APPEND)
      else Return (Z.lor flags LIBSSH2_FXF_TRUNC)
  else Return flags.
End Translation.

(** ** The SFTP side of libssh2

    libssh2 is an external library.  Its answers are given by an
    [sftp_server]; the [world] records what the library has been asked so
    far and the state it keeps for a file handle. *)

Definition handle : Type := nat.

Inductive call : Type :=
| libssh2_sftp_open_ex (filename : string) (flags mode open_type : Z)
| libssh2_sftp_tell64 (h : handle)
| libssh2_sftp_fstat_ex (h : handle)
| libssh2_sftp_seek64 (h : handle) (offset : Z)
| libssh2_sftp_read (h : handle) (buffer buffer_maxlen : Z)
| libssh2_sftp_write (h : handle) (buffer count : Z).
(* [buffer] is the position in the caller's buffer that the pointer passed
   to the library designates. *)

Record sftp_server : Type := {
  (* the handle returned by libssh2_sftp_open_ex, [None] for NULL *)
  open_ex_answer : string -> Z -> Z -> Z -> option handle;
  (* return code and [filesize] attribute of libssh2_sftp_fstat_ex *)
  fstat_ex_answer : handle -> Z * Z;
  (* return value of the n-th transfer call, given the length it asked *)
  read_answer : nat -> Z -> Z;
  write_answer : nat -> Z -> Z;
  (* the session's last error code *)
  last_errno : Z;
  (* the code of libssh2_sftp_last_error *)
  last_sftp_errno : Z
}.

Record world : Type := {
  calls : list call;        (* the calls made to libssh2, oldest first *)
  offset : handle -> Z;     (* the offset libssh2 keeps in each handle *)
  transfers : nat           (* how many transfer calls have been made *)
}.

Definition log (c : call) (w : world) : world :=
  {| calls := calls w ++ [c]; offset := offset w; transfers := transfers w |}.

Definition set_offset (h : handle) (pos : Z) (w : world) : world :=
  {| calls := calls w;
     offset := fun h' => if Nat.eqb h' h then pos else offset w h';
     transfers := transfers w |}.

Definition next_transfer (w : world) : world :=
  {| calls := calls w; offset := offset w; transfers := S (transfers w) |}.

(** [LIBSSH2_ERROR_SFTP_PROTOCOL] of libssh2.h. *)
Definition LIBSSH2_ERROR_SFTP_PROTOCOL : Z := -31.

(** Modelled from the spec: [ssh::exception::last_error] of
    ssh/ssh_error.hpp, which is not among the sources.  By the glossary of
    the specification a translated error is a self-contained value made by
    copying the connection's last-error state: an [ssh_error] whose
    [error_code()] is the session's last error code, with nothing attached
    to it. *)
Definition last_error (srv : sftp_server) : exn :=
  ssh_error (last_errno srv) None None.

(** [detail::throw_last_error] of ssh/sftp.hpp: when the session's last
    error is an SFTP protocol error, an [sftp_error] is built from it with
    the code of [libssh2_sftp_last_error], the failing libssh2 function is
    attached to it, and it is thrown; any other last error is thrown as it
    is, with nothing attached. *)
Definition throw_last_error {A} (srv : sftp_server) (api_function : string)
  : M world A :=
  let error := last_error srv in
  if last_errno srv (* error.error_code() *)
       =? LIBSSH2_ERROR_SFTP_PROTOCOL then
    let derived_error :=
      ssh_error (last_errno srv) (Some (last_sftp_errno srv, api_function))
        None in
    throw derived_error
  else throw error.

(** [catch (boost::exception& e) { e << errinfo_file_name(path); throw; }]:
    inside the [try] blocks of [read] and [write] nothing but an
    [ssh_error] is thrown, so the file name is recorded for it alone. *)
Definition errinfo_file_name (path : string) (e : exn) : exn :=
  match e with
  | ssh_error code sftp _ => ssh_error code sftp (Some path)
  | _ => e
  end.

(** Modelled from the spec: the overload of [detail::throw_last_error] that
    also takes a path and its length, which [SSH_THROW_LAST_SFTP_ERROR_WITH_PATH]
    calls and ssh/sftp.hpp does not contain.  By section 7 of the
    specification the error of a failed low-level call carries the
    connection's last-error detail, the file-protocol code when there is
    one, and the file path when it is known: the overload throws what the
    other one throws, with the path attached as the file name. *)
Definition throw_last_error_with_path {A} (srv : sftp_server)
    (api_function : string) (path : string) : M world A :=
  rethrowing (throw_last_error srv api_function) (errinfo_file_name path).

(** ** The exception wrappers of [detail::libssh2::sftp] *)

(** [std::ios_base::seekdir]: the three enumerators, and any other value
    the enumeration can be made to hold. *)
Inductive seekdir : Type :=
| ios_beg
| ios_cur
| ios_end
| ios_seekdir_other (v : Z).

(** [boost::iostreams::stream_offset] is a signed 64-bit integer;
    [libssh2_sftp_tell64] and the [filesize] attribute are unsigned 64-bit
    integers.  Adding the two is done on unsigned 64-bit integers, and the
    sum is converted back to the signed type. *)
Definition is_stream_offset (x : Z) : Prop := - 2 ^ 63 <= x < 2 ^ 63.

Definition to_stream_offset (x : Z) : Z :=
  let u := x mod 2 ^ 64 in
  if u <? 2 ^ 63 then u else u - 2 ^ 64.

Module sftp.
Section Wrappers.
Variable srv : sftp_server.

(** The functions of libssh2 itself.  [tell64] and [seek64] read and set
    the offset kept in the handle; what a transfer call returns is the
    server's to decide, and a positive return moves the offset on by as
    much. *)
Definition tell64 (h : handle) : M world Z :=
  fun w => (Return (offset w h), log (libssh2_sftp_tell64 h) w).

Definition fstat_ex (h : handle) : M world (Z * Z) :=
  fun w => (Return (fstat_ex_answer srv h), log (libssh2_sftp_fstat_ex h) w).

Definition seek64 (h : handle) (pos : Z) : M world unit :=
  fun w => (Return tt, set_offset h pos (log (libssh2_sftp_seek64 h pos) w)).

Definition read_call (h : handle) (buffer buffer_maxlen : Z) : M world Z :=
  fun w =>
    let rc := read_answer srv (transfers w) buffer_maxlen in
    let w := log (libssh2_sftp_read h buffer buffer_maxlen) w in
    let w := if 0 <? rc then set_offset h (offset w h + rc) w else w in
    (Return rc, next_transfer w).

Definition write_call (h : handle) (buffer count : Z) : M world Z :=
  fun w =>
    let rc := write_answer srv (transfers w) count in
    let w := log (libssh2_sftp_write h buffer count) w in
    let w := if 0 <? rc then set_offset h (offset w h + rc) w else w in
    (Return rc, next_transfer w).

(** [detail::libssh2::sftp::open] *)
Definition open (filename : string) (flags mode open_type : Z)
  : M world handle :=
  fun w =>
    let w := log (libssh2_sftp_open_ex filename flags mode open_type) w in
    match open_ex_answer srv filename flags mode open_type with
    | None => throw_last_error srv "libssh2_sftp_open_ex" w
    | Some h => (Return h, set_offset h 0 w)
    end.

(** [detail::libssh2::sftp::read] *)
Definition read (h : handle) (buffer buffer_len : Z) : M world Z :=
  count <- read_call h buffer buffer_len ;;
  if count <? 0 then throw_last_error srv "libssh2_sftp_read"
  else ret count.

(** [detail::libssh2::sftp::write] *)
Definition write (h : handle) (buffer buffer_len : Z) : M world Z :=
  count <- write_call h buffer buffer_len ;;
  if count <? 0 then throw_last_error srv "libssh2_sftp_write"
  else ret count.
End Wrappers.
End sftp.

(** ** The stream engine: [namespace detail] and the devices *)

Section Stream.
Variable std : ios_base.
Variable srv : sftp_server.

(** [detail::open_file]: the arguments of the call, among them the
    translated flags, are evaluated before the call is made. *)
Definition open_file (open_path : string) (opening_mode : Z)
  : M world handle :=
  flags <- lift (openmode_to_libssh2_flags std opening_mode) ;;
  sftp.open srv open_path flags mode_0644 LIBSSH2_SFTP_OPENFILE.

(** [detail::open_input_file] *)
Definition open_input_file (open_path : string) (opening_mode : Z)
  : M world handle :=
  open_file open_path (Z.lor opening_mode (openmode.in_ std)).

(** [detail::open_output_file] *)
Definition open_output_file (open_path : string) (opening_mode : Z)
  : M world handle :=
  open_file open_path (Z.lor opening_mode (openmode.out std)).

(** [detail::seek] *)
Definition seek (h : handle) (open_path : string) (off : Z) (way : seekdir)
  : M world Z :=
  new_position <-
    match way with
    | ios_beg => ret off
    | ios_cur =>
        pos <- sftp.tell64 h ;;
        ret (to_stream_offset (pos + off))
    | ios_end =>
        r <- sftp.fstat_ex srv h ;;
        let (rc, filesize) := r in
        if negb (rc =? 0)
        then throw_last_error_with_path srv "libssh2_sftp_fstat_ex" open_path
        else ret (to_stream_offset (filesize + off))
    | ios_seekdir_other _ =>
        throw (invalid_argument "Unknown seek direction")
    end ;;
  if new_position <? 0
  then throw (logic_error "Cannot seek before start of file")
  else sftp.seek64 h new_position ;;; ret new_position.

(** The [do ... while (count < buffer_size)] loop of [detail::read].
    [fuel] bounds the number of iterations; [None] means that the loop
    has not finished within them. *)
Fixpoint read_loop (fuel : nat) (h : handle) (buffer_size count : Z)
  : M world (option Z) :=
  match fuel with
  | O => ret None
  | S fuel =>
      rc <- sftp.read srv h count (buffer_size - count) ;;
      if rc =? 0 then ret (Some count) (* EOF *)
      else
        let count := count + rc in
        if count <? buffer_size then read_loop fuel h buffer_size count
        else ret (Some count)
  end.

(** [detail::read] *)
Definition read (fuel : nat) (h : handle) (open_path : string)
    (buffer_size : Z) : M world (option Z) :=
  rethrowing (read_loop fuel h buffer_size 0) (errinfo_file_name open_path).

(** The [do ... while (count < data_size)] loop of [detail::write]. *)
Fixpoint write_loop (fuel : nat) (h : handle) (data_size count : Z)
  : M world (option Z) :=
  match fuel with
  | O => ret None
  | S fuel =>
      rc <- sftp.write srv h count (data_size - count) ;;
      let count := count + rc in
      if count <? data_size then write_loop fuel h data_size count
      else ret (Some count)
  end.

(** [detail::write] *)
Definition write (fuel : nat) (h : handle) (open_path : string)
    (data_size : Z) : M world (option Z) :=
  rethrowing
    (r <- write_loop fuel h data_size 0 ;;
     match r with
     | None => ret None
     | Some count =>
         if count =? data_size then ret (Some count)
         else throw (assertion_failed "count == data_size")
     end)
    (errinfo_file_name open_path).

(** The three devices hold the path and the handle ([m_channel] is the
    ambient SFTP session).  Each has a constructor that takes an
    [openmode::value] and one that takes a [std::ios_base::openmode]. *)
Record device : Type := { m_open_path : string; m_handle : handle }.

Definition sftp_input_device (open_path : string) (opening_mode : Z)
  : M world device :=
  h <- open_input_file open_path opening_mode ;;
  ret {| m_open_path := open_path; m_handle := h |}.

Definition sftp_input_device_std (open_path : string) (opening_mode : Z)
  : M world device :=
  mode <- lift (translate_flags std opening_mode) ;;
  h <- open_input_file open_path mode ;;
  ret {| m_open_path := open_path; m_handle := h |}.

Definition sftp_output_device (open_path : string) (opening_mode : Z)
  : M world device :=
  h <- open_output_file open_path opening_mode ;;
  ret {| m_open_path := open_path; m_handle := h |}.

Definition sftp_output_device_std (open_path : string) (opening_mode : Z)
  : M world device :=
  mode <- lift (translate_flags std opening_mode) ;;
  h <- open_output_file open_path mode ;;
  ret {| m_open_path := open_path; m_handle := h |}.

Definition sftp_io_device (open_path : string) (opening_mode : Z)
  : M world device :=
  h <- open_file open_path opening_mode ;;
  ret {| m_open_path := open_path; m_handle := h |}.

Definition sftp_io_device_std (open_path : string) (opening_mode : Z)
  : M world device :=
  mode <- lift (translate_flags std opening_mode) ;;
  h <- open_file open_path mode ;;
  ret {| m_open_path := open_path; m_handle := h |}.
End Stream.

(** ** The session guard *)

Module session.

Inductive call : Type :=
| libssh2_session_init_ex
| libssh2_session_startup (s : handle) (socket : Z)
| libssh2_session_disconnect (s : handle) (description : string)
| libssh2_session_free (s : handle).

Record library : Type := {
  (* the session allocated by libssh2_session_init_ex, [None] for NULL *)
  init_ex_answer : option handle;
  (* return codes of libssh2_session_startup and _disconnect *)
  startup_answer : handle -> Z -> Z;
  disconnect_answer : handle -> string -> Z;
  (* code and message of the session's last error *)
  last_error : handle -> Z * string
}.

Record world : Type := {
  calls : list call;       (* the calls made to libssh2, oldest first *)
  allocated : list handle  (* the sessions allocated and not yet freed *)
}.

Definition log (c : call) (w : world) : world :=
  {| calls := calls w ++ [c]; allocated := allocated w |}.

Fixpoint remove_one (s : handle) (l : list handle) : list handle :=
  match l with
  | [] => []
  | x :: r => if Nat.eqb x s then r else x :: remove_one s r
  end.

Section Library.
Variable lib : library.

(** [::libssh2_session_free] *)
Definition session_free (s : handle) : M world unit :=
  fun w =>
    (Return tt,
     {| calls := calls w ++ [libssh2_session_free s];
        allocated := remove_one s (allocated w) |}).

(** [detail::libssh2::session::init] *)
Definition init : M world handle :=
  fun w =>
    let w := log libssh2_session_init_ex w in
    match init_ex_answer lib with
    | None => (Throw bad_alloc, w)
    | Some s =>
        (Return s, {| calls := calls w; allocated := s :: allocated w |})
    end.

(** Modelled from the spec: the overload of
    [detail::libssh2::session::startup] that takes an [error_code] and
    a message reference, which session.hpp does not contain.  By the
    rules of libssh2.hpp it behaves as [libssh2_session_startup] does,
    except that the details of an error are received by the two
    references instead of being thrown.  The pair returned is what the
    references hold afterwards: a default [error_code] (0) and an
    empty message on success. *)
Definition startup (s : handle) (socket : Z) : M world (Z * string) :=
  fun w =>
    let w := log (libssh2_session_startup s socket) w in
    if negb (startup_answer lib s socket =? 0)
    then (Return (last_error lib s), w)
    else (Return (0, ""), w).

(** Modelled from the spec: the overload of
    [detail::libssh2::session::disconnect] that takes an [error_code]
    reference, which session.hpp does not contain; as for [startup]. *)
Definition disconnect (s : handle) (description : string) : M world Z :=
  fun w =>
    let w := log (libssh2_session_disconnect s description) w in
    if negb (disconnect_answer lib s description =? 0)
    then (Return (fst (last_error lib s)), w)
    else (Return 0, w).

Record session_state : Type := {
  m_session : handle;
  m_disconnection_message : option string
}.

(** [session_state::session_state()] *)
Definition session_state_unconnected : M world session_state :=
  s <- init ;;
  ret {| m_session := s; m_disconnection_message := None |}.

(** [session_state::session_state(int, const std::string&)] *)
Definition session_state_connected (socket : Z)
    (disconnection_message : string) : M world session_state :=
  s <- init ;;
  r <- startup s socket ;;
  let (ec, error_message) := r in
  if truthy ec then
    (* Must free session here as destructor won't be called *)
    session_free s ;;;
    throw (system_error ec error_message)
  else
    ret {| m_session := s;
           m_disconnection_message := Some disconnection_message |}.

(** [session_state::~session_state()] *)
Definition destroy (st : session_state) : M world unit :=
  match m_disconnection_message st with
  | Some message =>
      ec <- disconnect (m_session st) message ;;
      ret tt
  | None => ret tt
  end ;;;
  session_free (m_session st).
End Library.

End session.


(** ** What the specification asks of seek, read and write *)

(** What an error thrown for the failure of [api_function] carries beside
    the session's last error code: the SFTP code and the name of the
    function when the last error is an SFTP protocol error, nothing
    otherwise. *)
Definition sftp_detail (srv : sftp_server) (api_function : string)
  : option (Z * string) :=
  if last_errno srv =? LIBSSH2_ERROR_SFTP_PROTOCOL
  then Some (last_sftp_errno srv, api_function)
  else None.

(** The position a seek aims at: the offset itself from the start, the
    handle's last known position plus the offset from the current position,
    the remote file size plus the offset from the end.  There is none when
    the size cannot be fetched or the reference point is not one of the
    three. *)
Definition seek_target (srv : sftp_server) (w : world) (h : handle) (off : Z)
    (way : seekdir) : option Z :=
  match way with
  | ios_beg => Some off
  | ios_cur => Some (offset w h + off)
  | ios_end =>
      if fst (fstat_ex_answer srv h) =? 0
      then Some (snd (fstat_ex_answer srv h) + off)
      else None
  | ios_seekdir_other _ => None
  end.

(** What a seek asks of libssh2 before it moves the handle: nothing from the
    start, the handle's position from the current position, one fstat from
    the end. *)
Definition seek_queries (h : handle) (way : seekdir) : list call :=
  match way with
  | ios_cur => [libssh2_sftp_tell64 h]
  | ios_end => [libssh2_sftp_fstat_ex h]
  | _ => []
  end.

Definition logs (cs : list call) (w : world) : world :=
  fold_left (fun w c => log c w) cs w.

(** Why a transfer loop stopped. *)
Inductive stop : Type :=
| all_transferred     (* the buffer is full, or all the data is accepted *)
| end_of_file         (* a transfer call returned zero *)
| transfer_failed.    (* a transfer call returned an error *)

(** [full_read srv h B n c trace total why]: from [c] bytes in a buffer of
    size [B], with [n] transfer calls made before, the calls of [trace] are
    issued in turn, each into the unfilled remainder of the buffer, and a
    further call is issued for as long as the last one returned some bytes
    and the buffer is not full; [total] bytes are in the buffer at the
    end. *)
Inductive full_read (srv : sftp_server) (h : handle) (B : Z)
  : nat -> Z -> list call -> Z -> stop -> Prop :=
| read_failed n c :
    read_answer srv n (B - c) < 0 ->
    full_read srv h B n c [libssh2_sftp_read h c (B - c)] c transfer_failed
| read_eof n c :
    read_answer srv n (B - c) = 0 ->
    full_read srv h B n c [libssh2_sftp_read h c (B - c)] c end_of_file
| read_filled n c :
    0 < read_answer srv n (B - c) ->
    B <= c + read_answer srv n (B - c) ->
    full_read srv h B n c [libssh2_sftp_read h c (B - c)]
      (c + read_answer srv n (B - c)) all_transferred
| read_more n c trace total why :
    0 < read_answer srv n (B - c) ->
    c + read_answer srv n (B - c) < B ->
    full_read srv h B (S n) (c + read_answer srv n (B - c)) trace total why ->
    full_read srv h B n c (libssh2_sftp_read h c (B - c) :: trace) total why.

(** [full_write srv h N n c trace total why]: the same for a write of [N]
    bytes of which [c] are accepted so far; each call is issued on the
    unwritten tail, and a further one for as long as some of the data is
    not accepted. *)
Inductive full_write (srv : sftp_server) (h : handle) (N : Z)
  : nat -> Z -> list call -> Z -> stop -> Prop :=
| write_failed n c :
    write_answer srv n (N - c) < 0 ->
    full_write srv h N n c [libssh2_sftp_write h c (N - c)] c transfer_failed
| write_accepted n c :
    0 <= write_answer srv n (N - c) ->
    N <= c + write_answer srv n (N - c) ->
    full_write srv h N n c [libssh2_sftp_write h c (N - c)]
      (c + write_answer srv n (N - c)) all_transferred
| write_more n c trace total why :
    0 <= write_answer srv n (N - c) ->
    c + write_answer srv n (N - c) < N ->
    full_write srv h N (S n) (c + write_answer srv n (N - c)) trace total why ->
    full_write srv h N n c (libssh2_sftp_write h c (N - c) :: trace) total why.

(** ** Fixtures

    A server that opens every file as handle 7, reports a file of 100
    bytes, reads at most 3 bytes and writes at most 4 bytes per call; and a
    world in which libssh2 has not been called yet. *)
Definition short_server : sftp_server :=
  {| open_ex_answer := fun _ _ _ _ => Some 7%nat;
     fstat_ex_answer := fun _ => (0, 100);
     read_answer := fun _ len => Z.min len 3;
     write_answer := fun _ len => Z.min len 4;
     last_errno := -31;
     last_sftp_errno := 4 |}.

Definition fresh_world : world :=
  {| calls := []; offset := fun _ => 0; transfers := 0 |}.

(** A libssh2 whose handshake fails with LIBSSH2_ERROR_KEX_FAILURE (-5)
    and whose disconnect fails too; a world without sessions. *)
Definition failing_library : session.library :=
  {| session.init_ex_answer := Some 3%nat;
     session.startup_answer := fun _ _ => -5;
     session.disconnect_answer := fun _ _ => -13;
     session.last_error := fun _ => (-5, "Unable to exchange encryption keys") |}.

Definition no_session : session.world :=
  {| session.calls := []; session.allocated := [] |}.

(** * The rest of the code

    What follows models the code that the streams and the session guard sit
    beside: the move constructor of the guard, the error messages and the
    directory iterator of [ssh/sftp.hpp], and the known-host collection of
    [ssh/knownhost.hpp].  The locks that the latter takes around each call
    into libssh2 are left out: the model is sequential. *)

(** ** Moving a session guard *)

(** [session_state::session_state(BOOST_RV_REF(session_state) other)]: the
    new guard takes the value of the raw pointer and the value of the
    optional message.  Moving a pointer copies it, and a moved-from
    [boost::optional] stays engaged, holding what the move left of its
    string ([residue]).  The pair is the new guard and the guard moved
    from. *)
Definition session_state_move (residue : string -> string)
    (other : session.session_state)
  : session.session_state * session.session_state :=
  ({| session.m_session := session.m_session other;
      session.m_disconnection_message :=
        session.m_disconnection_message other |},
   {| session.m_session := session.m_session other;
      session.m_disconnection_message :=
        option_map residue (session.m_disconnection_message other) |}).

(** ** Known hosts *)

Module knownhost.

(** The constants of libssh2.h.  The width of the key mask has grown with
    the versions of libssh2 (3, 7 and 15, shifted by 18), so it is a
    parameter; the others have not changed. *)
Definition LIBSSH2_KNOWNHOST_TYPE_MASK : Z := 65535. (* 0xffff *)
Definition LIBSSH2_KNOWNHOST_TYPE_PLAIN : Z := 1.
Definition LIBSSH2_KNOWNHOST_TYPE_SHA1 : Z := 2.
Definition LIBSSH2_KNOWNHOST_TYPE_CUSTOM : Z := 3.
Definition LIBSSH2_KNOWNHOST_KEYENC_RAW : Z := Z.shiftl 1 16.
Definition LIBSSH2_KNOWNHOST_KEYENC_BASE64 : Z := Z.shiftl 2 16.
Definition LIBSSH2_KNOWNHOST_KEY_RSA1 : Z := Z.shiftl 1 18.
Definition LIBSSH2_KNOWNHOST_KEY_SSHRSA : Z := Z.shiftl 2 18.
Definition LIBSSH2_KNOWNHOST_KEY_SSHDSS : Z := Z.shiftl 3 18.
Definition LIBSSH2_KNOWNHOST_CHECK_MATCH : Z := 0.
Definition LIBSSH2_KNOWNHOST_CHECK_MISMATCH : Z := 1.
Definition LIBSSH2_KNOWNHOST_CHECK_NOTFOUND : Z := 2.

Definition key_mask_ok (LIBSSH2_KNOWNHOST_KEY_MASK : Z) : bool :=
  existsb (fun bits => LIBSSH2_KNOWNHOST_KEY_MASK =? Z.shiftl bits 18)
    [3; 7; 15].

(** [struct libssh2_knownhost]: [name] and [key] are C strings and may be
    NULL.  A [libssh2_knownhost*] is NULL or an address in the memory of
    the library. *)
Record libssh2_knownhost : Type := {
  name : option string;
  key : option string;
  typemask : Z
}.

Definition pointer : Type := option nat.
Definition memory : Type := nat -> libssh2_knownhost.

(** [ssh::hostkey_type::enum_t] and the parts of [ssh::host_key] that the
    collection uses. *)
Inductive hostkey_type : Type := rsa1 | ssh_rsa | ssh_dss | unknown.

Record host_key : Type := {
  hk_key : string;
  hk_algorithm : hostkey_type;
  hk_is_base64 : bool
}.

(** *** [std::string::find] and [std::string::substr] *)

Fixpoint find_first (c : Ascii.ascii) (s : string) : option nat :=
  match s with
  | EmptyString => None
  | String x r =>
      if Ascii.eqb x c then Some O else option_map S (find_first c r)
  end.

Section Strings.
(** [std::string::npos], the largest value of [size_t]. *)
Variable npos : Z.

Definition string_find (s : string) (c : Ascii.ascii) : Z :=
  match find_first c s with
  | Some i => Z.of_nat i
  | None => npos
  end.

(** [s.substr(pos, n)] and [s.substr(pos)], for [pos] within the string. *)
Definition substr (s : string) (pos n : Z) : string :=
  substring (Z.to_nat pos) (Z.to_nat n) s.

Definition substr_from (s : string) (pos : Z) : string :=
  substring (Z.to_nat pos) (String.length s - Z.to_nat pos) s.

(** Addition on [size_t]. *)
Definition size_add (a b : Z) : Z := (a + b) mod (npos + 1).

Section Entry.
Variable LIBSSH2_KNOWNHOST_KEY_MASK : Z.
Variable mem : memory.

(** [detail::internal_key] *)
Definition internal_key (pos : pointer) : string :=
  match pos with
  | Some a => match key (mem a) with Some k => k | None => "" end
  | None => ""
  end.

(** [knownhost::name] *)
Definition knownhost_name (m_pos : pointer) : string :=
  match m_pos with
  | Some a => match name (mem a) with Some n => n | None => "" end
  | None => ""
  end.

(** [knownhost::key] *)
Definition knownhost_key (m_pos : pointer) : string :=
  let k := internal_key m_pos in
  let space := string_find k " "%char in
  if negb (space =? npos) then substr k 0 space else k.

(** [knownhost::comment] *)
Definition knownhost_comment (m_pos : pointer) : string :=
  let k := internal_key m_pos in
  let space := string_find k " "%char in
  if negb (space =? npos) && negb (size_add space 1 =? npos)
  then substr_from k (size_add space 1)
  else "".

(** [knownhost::key_algo], [is_name_plain], [is_name_sha1] and
    [is_name_custom] dereference [m_pos] unchecked: they take the address
    it holds. *)
Definition key_algo (a : nat) : string :=
  let masked := Z.land (typemask (mem a)) LIBSSH2_KNOWNHOST_KEY_MASK in
  if masked =? LIBSSH2_KNOWNHOST_KEY_RSA1 then "rsa1"
  else if masked =? LIBSSH2_KNOWNHOST_KEY_SSHRSA then "ssh-rsa"
  else if masked =? LIBSSH2_KNOWNHOST_KEY_SSHDSS then "ssh-dss"
  else "unknown".

Definition is_name_plain (a : nat) : bool :=
  Z.land (typemask (mem a)) LIBSSH2_KNOWNHOST_TYPE_MASK
  =? LIBSSH2_KNOWNHOST_TYPE_PLAIN.

Definition is_name_sha1 (a : nat) : bool :=
  Z.land (typemask (mem a)) LIBSSH2_KNOWNHOST_TYPE_MASK
  =? LIBSSH2_KNOWNHOST_TYPE_SHA1.

Definition is_name_custom (a : nat) : bool :=
  Z.land (typemask (mem a)) LIBSSH2_KNOWNHOST_TYPE_MASK
  =? LIBSSH2_KNOWNHOST_TYPE_CUSTOM.
End Entry.
End Strings.

(** [detail::hostkey_type_to_add_type] *)
Definition hostkey_type_to_add_type (type : hostkey_type) : outcome Z :=
  match type with
  | rsa1 => Return LIBSSH2_KNOWNHOST_KEY_RSA1
  | ssh_rsa => Return LIBSSH2_KNOWNHOST_KEY_SSHRSA
  | ssh_dss => Return LIBSSH2_KNOWNHOST_KEY_SSHDSS
  | unknown => Throw (invalid_argument "Unrecognised key algorithm")
  end.

(** *** The collection in libssh2

    The wrappers of [ssh/detail/libssh2/knownhost.hpp] return what libssh2
    returns or throw in its place.  Their answers are given by a [library],
    which sees the calls made before; the world is the list of the calls
    made, oldest first. *)
Inductive call : Type :=
| libssh2_knownhost_get (prev : pointer)
| libssh2_knownhost_add (host : string) (salt : option string)
    (key : string) (typemask : Z)
| libssh2_knownhost_check (host key : string) (typemask : Z)
| libssh2_knownhost_del (entry : pointer).

Definition world : Type := list call.

Record library : Type := {
  (* return code and the entry stored through the out-parameter *)
  get_answer : world -> pointer -> outcome (Z * pointer);
  add_answer : world -> string -> option string -> string -> Z
               -> outcome pointer;
  check_answer : world -> string -> string -> Z -> outcome (Z * pointer);
  del_answer : world -> pointer -> outcome unit
}.

Definition pointer_eqb (p q : pointer) : bool :=
  match p, q with
  | Some a, Some b => Nat.eqb a b
  | None, None => true
  | _, _ => false
  end.

(** [class knownhost], [class knownhost_iterator] and
    [class knownhost_search_result]; the session and the collection that
    each of them also holds are the ambient ones. *)
Record knownhost : Type := { m_pos : pointer }.

Record knownhost_iterator : Type := { it_pos : pointer }.

Record knownhost_search_result : Type := {
  m_host : knownhost_iterator;
  m_end : knownhost_iterator;
  m_match : bool
}.

(** [knownhost_iterator::equal], which [==] and [!=] go through. *)
Definition equal (a b : knownhost_iterator) : bool :=
  pointer_eqb (it_pos a) (it_pos b).

(** [knownhost_search_result::knownhost_search_result] *)
Definition make_search_result (it end_ : knownhost_iterator) (match_ : bool)
  : outcome knownhost_search_result :=
  if negb match_ || negb (equal it end_)
  then Return {| m_host := it; m_end := end_; m_match := match_ |}
  else Throw (assertion_failed "!match || (m_host != m_end)").

Definition mismatch (r : knownhost_search_result) : bool :=
  negb (m_match r) && negb (equal (m_host r) (m_end r)).
Definition match_ (r : knownhost_search_result) : bool :=
  m_match r && negb (equal (m_host r) (m_end r)).
Definition not_found (r : knownhost_search_result) : bool :=
  equal (m_host r) (m_end r).

(** [knownhost_iterator::dereference] *)
Definition dereference (it : knownhost_iterator) : outcome knownhost :=
  match it_pos it with
  | None => Throw (logic_error "Can't dereference the end of a collection")
  | Some a => Return {| m_pos := Some a |}
  end.

Section Collection.
Variable lib : library.

Definition get (prev : pointer) : M world (Z * pointer) :=
  fun w => (get_answer lib w prev, (w ++ [libssh2_knownhost_get prev])%list).

Definition add_call (host : string) (salt : option string) (key : string)
    (type : Z) : M world pointer :=
  fun w => (add_answer lib w host salt key type,
            (w ++ [libssh2_knownhost_add host salt key type])%list).

Definition check (host key : string) (type : Z) : M world (Z * pointer) :=
  fun w => (check_answer lib w host key type,
            (w ++ [libssh2_knownhost_check host key type])%list).

Definition del (entry : pointer) : M world unit :=
  fun w => (del_answer lib w entry,
            (w ++ [libssh2_knownhost_del entry])%list).

(** [detail::next_host] *)
Definition next_host (current_position : pointer) : M world pointer :=
  r <- get current_position ;;
  let (rc, host) := r in
  if negb ((rc =? 0) || (rc =? 1))
  then throw (assertion_failed "rc == 0 || rc == 1")
  else if rc =? 1 then (* finished *)
    match host with
    | Some _ => throw (assertion_failed "host == NULL")
    | None => ret None
    end
  else ret host.

(** [detail::add] *)
Definition detail_add (host_or_ip salt key : string) (type : Z)
    (base64_key : bool) : M world pointer :=
  let type :=
    if base64_key then Z.lor type LIBSSH2_KNOWNHOST_KEYENC_BASE64
    else Z.lor type LIBSSH2_KNOWNHOST_KEYENC_RAW in
  add_call host_or_ip (if String.eqb salt "" then None else Some salt)
    key type.

(** [knownhost_collection::begin] and [end] *)
Definition begin : M world knownhost_iterator :=
  p <- next_host None ;;
  ret {| it_pos := p |}.

Definition end_ : knownhost_iterator := {| it_pos := None |}.

(** [knownhost_iterator::increment] *)
Definition increment (it : knownhost_iterator) : M world knownhost_iterator :=
  match it_pos it with
  | None =>
      throw (logic_error "Can't increment past the end of a collection")
  | Some _ =>
      p <- next_host (it_pos it) ;;
      ret {| it_pos := p |}
  end.

(** [erase]: the copy is incremented first, then the entry is deleted. *)
Definition erase (it : knownhost_iterator) : M world knownhost_iterator :=
  next <- increment it ;;
  del (it_pos it) ;;;
  ret next.

(** [knownhost_collection::find] *)
Definition find (host key : string) (base64_key : bool)
  : M world knownhost_search_result :=
  let type := LIBSSH2_KNOWNHOST_TYPE_PLAIN in
  let type :=
    if base64_key then Z.lor type LIBSSH2_KNOWNHOST_KEYENC_BASE64
    else Z.lor type LIBSSH2_KNOWNHOST_KEYENC_RAW in
  r <- check host key type ;;
  let (rc, found) := r in
  if rc =? LIBSSH2_KNOWNHOST_CHECK_MATCH then
    lift (make_search_result {| it_pos := found |} end_ true)
  else if rc =? LIBSSH2_KNOWNHOST_CHECK_MISMATCH then
    lift (make_search_result {| it_pos := found |} end_ false)
  else if rc =? LIBSSH2_KNOWNHOST_CHECK_NOTFOUND then
    lift (make_search_result end_ end_ false)
  else throw (assertion_failed "false").

(** [knownhost_collection::add], [add_hashed] and [add_custom] *)
Definition add (host_or_ip key : string) (algorithm : hostkey_type)
    (base64_key : bool) : M world knownhost :=
  t <- lift (hostkey_type_to_add_type algorithm) ;;
  let type := Z.lor LIBSSH2_KNOWNHOST_TYPE_PLAIN t in
  host <- detail_add host_or_ip "" key type base64_key ;;
  ret {| m_pos := host |}.

Definition add_hashed (host_or_ip salt key : string)
    (algorithm : hostkey_type) (base64_key : bool) : M world knownhost :=
  t <- lift (hostkey_type_to_add_type algorithm) ;;
  let type := Z.lor LIBSSH2_KNOWNHOST_TYPE_SHA1 t in
  host <- detail_add host_or_ip salt key type base64_key ;;
  ret {| m_pos := host |}.

Definition add_custom (host_or_ip key : string) (algorithm : hostkey_type)
    (base64_key : bool) : M world knownhost :=
  t <- lift (hostkey_type_to_add_type algorithm) ;;
  let type := Z.lor LIBSSH2_KNOWNHOST_TYPE_CUSTOM t in
  host <- detail_add host_or_ip "" key type base64_key ;;
  ret {| m_pos := host |}.

(** The free functions [add] and [update] that take an [ssh::host_key]. *)
Definition add_host_key (host_or_ip : string) (k : host_key)
  : M world knownhost :=
  add host_or_ip (hk_key k) (hk_algorithm k) (hk_is_base64 k).

Definition update (host_or_ip : string) (k : host_key)
    (entry : knownhost_search_result) : M world knownhost :=
  erase (m_host entry) ;;;
  add_host_key host_or_ip k.
End Collection.

End knownhost.

(** ** SFTP error messages *)

(** [detail::sftp_part_of_error_message], with the [LIBSSH2_FX_*] codes of
    libssh2_sftp.h (the SSH_FX_* codes of the SFTP protocol, 0 to 21). *)
Definition sftp_part_of_error_message (error : Z) : string :=
  if error =? 0 then ": FX_OK"
  else if error =? 1 then ": FX_EOF"
  else if error =? 2 then ": FX_NO_SUCH_FILE"
  else if error =? 3 then ": FX_PERMISSION_DENIED"
  else if error =? 4 then ": FX_FAILURE"
  else if error =? 5 then ": FX_BAD_MESSAGE"
  else if error =? 6 then ": FX_NO_CONNECTION"
  else if error =? 7 then ": FX_CONNECTION_LOST"
  else if error =? 8 then ": FX_OP_UNSUPPORTED"
  else if error =? 9 then ": FX_INVALID_HANDLE"
  else if error =? 10 then ": FX_NO_SUCH_PATH"
  else if error =? 11 then ": FX_FILE_ALREADY_EXISTS"
  else if error =? 12 then ": FX_WRITE_PROTECT"
  else if error =? 13 then ": FX_NO_MEDIA"
  else if error =? 14 then ": FX_NO_SPACE_ON_FILESYSTEM"
  else if error =? 15 then ": FX_QUOTA_EXCEEDED"
  else if error =? 16 then ": FX_UNKNOWN_PRINCIPAL"
  else if error =? 17 then ": FX_LOCK_CONFLICT"
  else if error =? 18 then ": FX_DIR_NOT_EMPTY"
  else if error =? 19 then ": FX_NOT_A_DIRECTORY"
  else if error =? 20 then ": FX_INVALID_FILENAME"
  else if error =? 21 then ": FX_LINK_LOOP"
  else "Unrecognised SFTP error value".

(** The message of an [sftp_error]: that of the [ssh_error] it is built
    from, with the part for the SFTP code appended. *)
Definition sftp_error_message (ssh_message : string) (sftp_error_code : Z)
  : string :=
  ssh_message ++ sftp_part_of_error_message sftp_error_code.

(** ** The directory iterator *)

Module directory.

Definition LIBSSH2_SFTP_OPENDIR : Z := 1.

(** [LIBSSH2_SFTP_ATTRIBUTES] *)
Record attributes : Type := {
  attr_flags : Z;
  attr_filesize : Z;
  attr_uid : Z;
  attr_gid : Z;
  attr_permissions : Z;
  attr_atime : Z;
  attr_mtime : Z
}.

Definition no_attributes : attributes :=
  {| attr_flags := 0; attr_filesize := 0; attr_uid := 0; attr_gid := 0;
     attr_permissions := 0; attr_atime := 0; attr_mtime := 0 |}.

(** The exceptions of the iterator: [std::range_error],
    [std::logic_error], and those of opening the directory and of a failed
    [libssh2_sftp_readdir_ex]. *)
Inductive failure : Type :=
| range_error (what : string)
| logic_error (what : string)
| open_failed (e : exn)
| readdir_failed (code : Z).

Inductive result (A : Type) : Type :=
| Ok (a : A)
| Raise (f : failure).
Arguments Ok {A} a.
Arguments Raise {A} f.

(** What [libssh2_sftp_readdir_ex] does on its n-th call: its return code,
    the bytes it writes from the start of the file name buffer and of the
    long entry buffer, and the attributes it stores. *)
Record listing : Type := {
  readdir_answer : nat -> handle -> Z * list ascii * list ascii * attributes
}.

Record dworld : Type := {
  files : world;            (* the world of the file calls, with the opens *)
  readdirs : list handle    (* the readdir calls made, oldest first *)
}.

(** A [std::vector<char>] of [size] zero bytes, after a library that is
    given its address and size has written [written] from its start. *)
Definition buffer_after (size : nat) (written : list ascii) : list ascii :=
  firstn size (written ++ repeat zero size).

(** [v[i] = c] *)
Fixpoint store (v : list ascii) (i : nat) (c : ascii) : list ascii :=
  match v, i with
  | [], _ => []
  | _ :: r, O => c :: r
  | x :: r, S i => x :: store r i c
  end.

(** [std::string(p, n)]: the [n] bytes at [p]; [std::string(p)]: the bytes
    at [p] up to the first zero byte. *)
Definition string_of_bytes (p : list ascii) (n : nat) : string :=
  string_of_list_ascii (firstn n p).

Fixpoint c_string (p : list ascii) : string :=
  match p with
  | [] => ""
  | x :: r => if Ascii.eqb x zero then "" else String x (c_string r)
  end.

(** [class sftp_file]; the path [m_directory / m_file_name] is kept as its
    two operands. *)
Record sftp_file : Type := {
  file_directory : string;
  file_name : string;
  long_entry : string;
  raw_attributes : attributes
}.

(** [is_symlink]: [LIBSSH2_SFTP_S_ISLNK], with [LIBSSH2_SFTP_S_IFMT]
    0170000 and [LIBSSH2_SFTP_S_IFLNK] 0120000. *)
Definition is_symlink (file : sftp_file) : bool :=
  Z.land (attr_permissions (raw_attributes file)) 61440 =? 40960.

Record directory_iterator : Type := {
  m_directory : string;
  m_handle : option handle;
  m_file_name : string;
  m_long_entry : string;
  m_attributes : attributes
}.

(** [directory_iterator::directory_iterator()]: the end-of-directory
    marker. *)
Definition end_marker : directory_iterator :=
  {| m_directory := ""; m_handle := None; m_file_name := "";
     m_long_entry := ""; m_attributes := no_attributes |}.

(** [directory_iterator::equal] *)
Definition equal (a b : directory_iterator) : bool :=
  match m_handle a, m_handle b with
  | Some x, Some y => Nat.eqb x y
  | None, None => true
  | _, _ => false
  end.

(** [directory_iterator::dereference] *)
Definition dereference (it : directory_iterator) : result sftp_file :=
  match m_handle it with
  | None => Raise (logic_error "Can't dereference the end of a collection")
  | Some _ =>
      Ok {| file_directory := m_directory it; file_name := m_file_name it;
            long_entry := m_long_entry it;
            raw_attributes := m_attributes it |}
  end.

Section Iterator.
Variable srv : sftp_server.
Variable dir : listing.

(** [detail::open_directory] *)
Definition open_directory (path : string) (w : dworld)
  : result handle * dworld :=
  match sftp.open srv path 0 0 LIBSSH2_SFTP_OPENDIR (files w) with
  | (Return h, fw) => (Ok h, {| files := fw; readdirs := readdirs w |})
  | (Throw e, fw) =>
      (Raise (open_failed e), {| files := fw; readdirs := readdirs w |})
  end.

(** [directory_iterator::next_file], called with a handle that is not
    NULL. *)
Definition next_file (it : directory_iterator) (h : handle) (w : dworld)
  : result directory_iterator * dworld :=
  let '(rc, name_written, long_written, attrs) :=
    readdir_answer dir (List.length (readdirs w)) h in
  let filename_buffer := buffer_after 1024 name_written in
  let longentry_buffer := buffer_after 1024 long_written in
  let w := {| files := files w; readdirs := readdirs w ++ [h] |} in
  if rc =? 0 then (* end of files *)
    (Ok {| m_directory := m_directory it; m_handle := None;
           m_file_name := m_file_name it; m_long_entry := m_long_entry it;
           m_attributes := m_attributes it |}, w)
  else if rc <? 0 then
    (Raise (readdir_failed (last_errno srv)), w)
  else
    let longentry_buffer :=
      store longentry_buffer (List.length longentry_buffer - 1) zero in
    (Ok {| m_directory := m_directory it; m_handle := Some h;
           m_file_name :=
             string_of_bytes filename_buffer
               (Nat.min (Z.to_nat rc) (List.length filename_buffer));
           m_long_entry := c_string longentry_buffer;
           m_attributes := attrs |}, w).

(** [directory_iterator::directory_iterator(sftp_channel, const path&)] *)
Definition open_iterator (path : string) (w : dworld)
  : result directory_iterator * dworld :=
  match open_directory path w with
  | (Ok h, w) =>
      next_file {| m_directory := path; m_handle := Some h;
                   m_file_name := ""; m_long_entry := "";
                   m_attributes := no_attributes |} h w
  | (Raise f, w) => (Raise f, w)
  end.

(** [directory_iterator::increment] *)
Definition increment (it : directory_iterator) (w : dworld)
  : result directory_iterator * dworld :=
  match m_handle it with
  | None => (Raise (range_error "No more files"), w)
  | Some h => next_file it h w
  end.
End Iterator.

End directory.

(** ** More fixtures *)

(** A server that refuses to open any file, and fails every transfer. *)
Definition refusing_server : sftp_server :=
  {| open_ex_answer := fun _ _ _ _ => None;
     fstat_ex_answer := fun _ => (-31, 0);
     read_answer := fun _ _ => -31;
     write_answer := fun _ _ => -31;
     last_errno := -31;
     last_sftp_errno := 4 |}.

(** A libssh2 whose handshake succeeds and whose disconnection fails; one
    that cannot allocate a session. *)
Definition working_library : session.library :=
  {| session.init_ex_answer := Some 3%nat;
     session.startup_answer := fun _ _ => 0;
     session.disconnect_answer := fun _ _ => -13;
     session.last_error := fun _ => (-13, "Unable to send disconnect message") |}.

Definition exhausted_library : session.library :=
  {| session.init_ex_answer := None;
     session.startup_answer := fun _ _ => 0;
     session.disconnect_answer := fun _ _ => 0;
     session.last_error := fun _ => (0, "") |}.

(** The name by which [knownhost::key_algo] calls each algorithm, and what
    it means for a type mask to decode to an algorithm and to the three
    answers of [is_name_plain], [is_name_sha1] and [is_name_custom]. *)
Definition algorithm_name (t : knownhost.hostkey_type) : string :=
  match t with
  | knownhost.rsa1 => "rsa1"
  | knownhost.ssh_rsa => "ssh-rsa"
  | knownhost.ssh_dss => "ssh-dss"
  | knownhost.unknown => "unknown"
  end.

Definition decodes_to (key_mask type : Z) (algorithm : knownhost.hostkey_type)
    (plain sha1 custom : bool) : Prop :=
  forall (mem : knownhost.memory) (a : nat),
    knownhost.typemask (mem a) = type ->
    knownhost.key_algo key_mask mem a = algorithm_name algorithm /\
    knownhost.is_name_plain mem a = plain /\
    knownhost.is_name_sha1 mem a = sha1 /\
    knownhost.is_name_custom mem a = custom.

(** A memory whose every entry is a plain ssh-rsa entry with a comment,
    and a collection in which every call succeeds: the entry at 1 is the
    only one, a check matches it, and an added entry lands at 2. *)
Definition one_entry_memory : knownhost.memory :=
  fun _ =>
    {| knownhost.name := Some "example.com";
       knownhost.key := Some "AAAAB3NzaC1yc2E= user@example.com";
       knownhost.typemask := 655361 |}.

Definition one_entry_library : knownhost.library :=
  {| knownhost.get_answer :=
       fun _ prev =>
         match prev with
         | None => Return (0, Some 1%nat)
         | Some _ => Return (1, None)
         end;
     knownhost.add_answer := fun _ _ _ _ _ => Return (Some 2%nat);
     knownhost.check_answer := fun _ _ _ _ => Return (0, Some 1%nat);
     knownhost.del_answer := fun _ _ => Return tt |}.

(** A pointer that is not NULL. *)
Definition is_some {A : Type} (o : option A) : bool :=
  match o with Some _ => true | None => false end.

(** A directory with one file, listed by the first call and ended by the
    second. *)
Definition one_file_listing : directory.listing :=
  {| directory.readdir_answer :=
       fun n _ =>
         match n with
         | O =>
             (5, list_ascii_of_string "a.txt",
              list_ascii_of_string "-rw-r--r-- 1 u g 12 Jan 1 00:00 a.txt",
              {| directory.attr_flags := 15; directory.attr_filesize := 12;
                 directory.attr_uid := 1000; directory.attr_gid := 1000;
                 directory.attr_permissions := 33188;
                 directory.attr_atime := 0; directory.attr_mtime := 0 |})
         | S _ => (0, [], [], directory.no_attributes)
         end |}.

Definition fresh_dworld : directory.dworld :=
  {| directory.files := fresh_world; directory.readdirs := [] |}.

(** * Properties *)

(** What [throw_last_error] throws, and that it leaves the world alone. *)
Lemma throw_last_error_run {A : Type} (srv : sftp_server)
    (api_function : string) (w : world) :
  throw_last_error (A := A) srv api_function w =
    (Throw (ssh_error (last_errno srv) (sftp_detail srv api_function) None),
     w).
Proof.
  unfold throw_last_error, sftp_detail, throw.
  destruct (last_errno srv =? LIBSSH2_ERROR_SFTP_PROTOCOL); reflexivity.
Qed.

(** ** Open-mode translation *)

(** The translation only tests which of the six flags the mode contains:
    split on the outcome of each test and compute. *)
Ltac flag_cases :=
  unfold openmode_to_libssh2_flags, contains in *;
  repeat match goal with
    | H : truthy (Z.land _ _) = _ |- _ => rewrite H in *
    end;
  repeat match goal with
    | |- context [truthy (Z.land ?m ?f)] =>
        destruct (truthy (Z.land m f)) eqn:?
    end;
  cbn in *.

(** C10.  Without [out] the translated flags are READ when [in] is set and
    empty otherwise, whatever the other flags are; in particular they
    contain none of CREAT, TRUNC, APPEND and EXCL. *)
Theorem without_out_flags_are_read_or_empty (std : ios_base) (m : Z) :
  contains m (openmode.out std) = false ->
  exists flags,
    openmode_to_libssh2_flags std m = Return flags /\
    flags = (if contains m (openmode.in_ std) then LIBSSH2_FXF_READ else 0) /\
    contains flags LIBSSH2_FXF_CREAT = false /\
    contains flags LIBSSH2_FXF_TRUNC = false /\
    contains flags LIBSSH2_FXF_APPEND = false /\
    contains flags LIBSSH2_FXF_EXCL = false.
Proof.
  intros Hout. flag_cases; eexists; repeat split; reflexivity.
Qed.

(** The same at [in | app | trunc | nocreate | noreplace] with the
    Microsoft constants: the flags are READ alone. *)
Lemma without_out_flags_are_read_or_empty_witness :
  exists flags,
    openmode_to_libssh2_flags msvc 217 = Return flags /\
    flags = (if contains 217 (openmode.in_ msvc) then LIBSSH2_FXF_READ else 0) /\
    contains flags LIBSSH2_FXF_CREAT = false /\
    contains flags LIBSSH2_FXF_TRUNC = false /\
    contains flags LIBSSH2_FXF_APPEND = false /\
    contains flags LIBSSH2_FXF_EXCL = false.
Proof.
  apply (without_out_flags_are_read_or_empty msvc 217). reflexivity.
Defined.

(** C2 (amended).  With [out] and without [in]: when [nocreate] and
    [noreplace] are both set the translation returns no flags, it throws
    [std::invalid_argument]; otherwise it returns flags that contain WRITE,
    contain CREAT exactly when [nocreate] is not set, contain EXCL exactly
    when [noreplace] is set and [nocreate] is not, and contain APPEND when
    [app] is set and TRUNC otherwise. *)
Theorem write_only_flags (std : ios_base) (m : Z) :
  contains m (openmode.out std) = true ->
  contains m (openmode.in_ std) = false ->
  if contains m openmode.nocreate && contains m openmode.noreplace
  then
    openmode_to_libssh2_flags std m =
      Throw (invalid_argument "Cannot combine nocreate and noreplace")
  else
    exists flags,
      openmode_to_libssh2_flags std m = Return flags /\
      contains flags LIBSSH2_FXF_WRITE = true /\
      contains flags LIBSSH2_FXF_READ = false /\
      contains flags LIBSSH2_FXF_CREAT = negb (contains m openmode.nocreate) /\
      contains flags LIBSSH2_FXF_EXCL =
        contains m openmode.noreplace && negb (contains m openmode.nocreate) /\
      contains flags LIBSSH2_FXF_APPEND = contains m (openmode.app std) /\
      contains flags LIBSSH2_FXF_TRUNC = negb (contains m (openmode.app std)).
Proof.
  intros Hout Hin.
  destruct (contains m openmode.nocreate) eqn:Hnc,
    (contains m openmode.noreplace) eqn:Hnr; cbn [andb negb];
    flag_cases; try reflexivity; eexists; repeat split; reflexivity.
Qed.

(** The same at [out | noreplace] with the libstdc++ constants: WRITE,
    CREAT, EXCL and TRUNC. *)
Lemma write_only_flags_witness :
  exists flags,
    openmode_to_libssh2_flags libstdcxx 144 = Return flags /\
    contains flags LIBSSH2_FXF_WRITE = true /\
    contains flags LIBSSH2_FXF_READ = false /\
    contains flags LIBSSH2_FXF_CREAT = negb (contains 144 openmode.nocreate) /\
    contains flags LIBSSH2_FXF_EXCL =
      contains 144 openmode.noreplace && negb (contains 144 openmode.nocreate) /\
    contains flags LIBSSH2_FXF_APPEND = contains 144 (openmode.app libstdcxx) /\
    contains flags LIBSSH2_FXF_TRUNC =
      negb (contains 144 (openmode.app libstdcxx)).
Proof.
  apply (write_only_flags libstdcxx 144); reflexivity.
Defined.

(** C2 as stated fails: [out | nocreate | noreplace] (libstdc++ constants,
    208) has [out] and has no [in], yet the translation throws and returns
    no flag set at all. *)
Lemma write_only_contradictory_pair_returns_no_flags :
  contains 208 (openmode.out libstdcxx) = true /\
  contains 208 (openmode.in_ libstdcxx) = false /\
  openmode_to_libssh2_flags libstdcxx 208 =
    Throw (invalid_argument "Cannot combine nocreate and noreplace") /\
  forall flags, openmode_to_libssh2_flags libstdcxx 208 <> Return flags.
Proof.
  repeat split. intros flags. discriminate.
Qed.

(** C3 (amended).  With [in] and [out]: without [trunc] the flags are
    READ|WRITE and nothing else; with [trunc], when [nocreate] and
    [noreplace] are both set the translation returns no flags, it throws
    [std::invalid_argument]; otherwise the flags also contain TRUNC, contain
    CREAT exactly when [nocreate] is not set, and contain EXCL exactly when
    [noreplace] is set and [nocreate] is not. *)
Theorem read_write_flags (std : ios_base) (m : Z) :
  contains m (openmode.in_ std) = true ->
  contains m (openmode.out std) = true ->
  if contains m (openmode.trunc std) && contains m openmode.nocreate
       && contains m openmode.noreplace
  then
    openmode_to_libssh2_flags std m =
      Throw (invalid_argument "Cannot combine nocreate and noreplace")
  else
    exists flags,
      openmode_to_libssh2_flags std m = Return flags /\
      contains flags LIBSSH2_FXF_READ = true /\
      contains flags LIBSSH2_FXF_WRITE = true /\
      contains flags LIBSSH2_FXF_APPEND = false /\
      if contains m (openmode.trunc std) then
        contains flags LIBSSH2_FXF_TRUNC = true /\
        contains flags LIBSSH2_FXF_CREAT =
          negb (contains m openmode.nocreate) /\
        contains flags LIBSSH2_FXF_EXCL =
          contains m openmode.noreplace && negb (contains m openmode.nocreate)
      else
        flags = Z.lor LIBSSH2_FXF_READ LIBSSH2_FXF_WRITE /\
        contains flags LIBSSH2_FXF_TRUNC = false /\
        contains flags LIBSSH2_FXF_CREAT = false /\
        contains flags LIBSSH2_FXF_EXCL = false.
Proof.
  intros Hin Hout.
  destruct (contains m (openmode.trunc std)) eqn:Ht,
    (contains m openmode.nocreate) eqn:Hnc,
    (contains m openmode.noreplace) eqn:Hnr; cbn [andb negb];
    flag_cases; try reflexivity; eexists; repeat split; reflexivity.
Qed.

(** The same at [in | out | nocreate | noreplace] with the Microsoft
    constants: there is no [trunc], so the two flags are ignored and the
    result is READ|WRITE. *)
Lemma read_write_flags_witness :
  exists flags,
    openmode_to_libssh2_flags msvc 195 = Return flags /\
    contains flags LIBSSH2_FXF_READ = true /\
    contains flags LIBSSH2_FXF_WRITE = true /\
    contains flags LIBSSH2_FXF_APPEND = false /\
    flags = Z.lor LIBSSH2_FXF_READ LIBSSH2_FXF_WRITE /\
    contains flags LIBSSH2_FXF_TRUNC = false /\
    contains flags LIBSSH2_FXF_CREAT = false /\
    contains flags LIBSSH2_FXF_EXCL = false.
Proof.
  apply (read_write_flags msvc 195); reflexivity.
Defined.

(** C3 as stated fails: [in | out | trunc | nocreate | noreplace]
    (libstdc++ constants, 248) has [in], [out] and [trunc], yet the
    translation throws and returns no flag set at all. *)
Lemma read_write_contradictory_pair_returns_no_flags :
  contains 248 (openmode.in_ libstdcxx) = true /\
  contains 248 (openmode.out libstdcxx) = true /\
  contains 248 (openmode.trunc libstdcxx) = true /\
  openmode_to_libssh2_flags libstdcxx 248 =
    Throw (invalid_argument "Cannot combine nocreate and noreplace") /\
  forall flags, openmode_to_libssh2_flags libstdcxx 248 <> Return flags.
Proof.
  repeat split. intros flags. discriminate.
Qed.

(** C1 (amended).  A mode with both [nocreate] and [noreplace] is rejected
    with [std::invalid_argument] exactly on the paths that may create the
    file: [out] without [in], or [out] with [in] and [trunc].  There
    [open_file] throws before libssh2 is called, for any path.  On the other
    paths the two flags are ignored and the translation returns READ and
    WRITE as [in] and [out] ask. *)
Theorem contradictory_pair_rejected_where_creation_applies
    (std : ios_base) (m : Z) :
  contains m openmode.nocreate = true ->
  contains m openmode.noreplace = true ->
  if contains m (openmode.out std)
     && (negb (contains m (openmode.in_ std)) || contains m (openmode.trunc std))
  then
    openmode_to_libssh2_flags std m =
      Throw (invalid_argument "Cannot combine nocreate and noreplace") /\
    forall (srv : sftp_server) (path : string) (w : world),
      open_file std srv path m w =
      (Throw (invalid_argument "Cannot combine nocreate and noreplace"), w)
  else
    openmode_to_libssh2_flags std m =
      Return (Z.lor
                (if contains m (openmode.in_ std) then LIBSSH2_FXF_READ else 0)
                (if contains m (openmode.out std) then LIBSSH2_FXF_WRITE else 0)).
Proof.
  intros Hnc Hnr.
  assert (Hthrow :
    openmode_to_libssh2_flags std m =
      Throw (invalid_argument "Cannot combine nocreate and noreplace") ->
    forall (srv : sftp_server) (path : string) (w : world),
      open_file std srv path m w =
      (Throw (invalid_argument "Cannot combine nocreate and noreplace"), w)).
  { intros E srv path w. unfold open_file, bind, lift. rewrite E. reflexivity. }
  destruct (contains m (openmode.out std)) eqn:Hout,
    (contains m (openmode.in_ std)) eqn:Hin,
    (contains m (openmode.trunc std)) eqn:Ht; cbn [andb orb negb];
    try (split; [| apply Hthrow]); flag_cases; reflexivity.
Qed.

(** At [out | nocreate | noreplace] (libstdc++ constants) the open is
    rejected and the world is left as it was. *)
Lemma contradictory_pair_rejected_where_creation_applies_witness :
  openmode_to_libssh2_flags libstdcxx 208 =
    Throw (invalid_argument "Cannot combine nocreate and noreplace") /\
  forall (srv : sftp_server) (path : string) (w : world),
    open_file libstdcxx srv path 208 w =
    (Throw (invalid_argument "Cannot combine nocreate and noreplace"), w).
Proof.
  apply (contradictory_pair_rejected_where_creation_applies libstdcxx 208);
    reflexivity.
Defined.

(** C1 as stated fails: [in | nocreate | noreplace] (Microsoft constants,
    193) contains both flags, yet it translates to READ, and opening a file
    with it goes on to call [libssh2_sftp_open_ex]. *)
Lemma contradictory_pair_accepted_for_reading :
  contains 193 openmode.nocreate = true /\
  contains 193 openmode.noreplace = true /\
  openmode_to_libssh2_flags msvc 193 = Return LIBSSH2_FXF_READ /\
  fst (open_file msvc short_server "/tmp/f" 193 fresh_world) = Return 7%nat /\
  calls (snd (open_file msvc short_server "/tmp/f" 193 fresh_world)) =
    [libssh2_sftp_open_ex "/tmp/f" LIBSSH2_FXF_READ mode_0644
       LIBSSH2_SFTP_OPENFILE].
Proof.
  repeat split.
Qed.

(** ** The stream devices *)

Lemma contains_lor_same (m f : Z) : 0 < f -> contains (Z.lor m f) f = true.
Proof.
  intros Hf. unfold contains, truthy.
  rewrite Z.land_lor_distr_l, Z.land_diag.
  destruct (Z.eqb_spec (Z.lor (Z.land m f) f) 0) as [E | E]; [| reflexivity].
  apply Z.lor_eq_0_iff in E. lia.
Qed.

Lemma contains_lor_other (m f g : Z) :
  Z.land f g = 0 -> contains (Z.lor m f) g = contains m g.
Proof.
  intros Hfg. unfold contains.
  rewrite Z.land_lor_distr_l, Hfg, Z.lor_0_r. reflexivity.
Qed.

Lemma pairwise_disjoint_In (l : list Z) (f g : Z) :
  pairwise_disjoint l = true -> In f l -> In g l -> f <> g -> Z.land f g = 0.
Proof.
  induction l as [| x r IH]; cbn [pairwise_disjoint In]; [tauto |].
  intros Hd Hf Hg Hne. apply andb_true_iff in Hd. destruct Hd as [Hx Hr].
  rewrite forallb_forall in Hx.
  destruct Hf as [-> | Hf], Hg as [-> | Hg].
  - congruence.
  - apply Z.eqb_eq, Hx, Hg.
  - rewrite Z.land_comm. apply Z.eqb_eq, Hx, Hf.
  - apply IH; assumption.
Qed.

Lemma bitmask_ok_positive (std : ios_base) (f : Z) :
  bitmask_ok std = true -> In f (elements std) -> 0 < f.
Proof.
  unfold bitmask_ok. intros Hok Hf. apply andb_true_iff in Hok.
  destruct Hok as [Hpos _]. rewrite forallb_forall in Hpos.
  apply Z.ltb_lt, Hpos, Hf.
Qed.

Lemma bitmask_ok_disjoint (std : ios_base) (f g : Z) :
  bitmask_ok std = true ->
  In f (elements std) -> In g (elements std) -> f <> g -> Z.land f g = 0.
Proof.
  unfold bitmask_ok. intros Hok. apply andb_true_iff in Hok.
  destruct Hok as [_ Hd]. apply pairwise_disjoint_In, Hd.
Qed.

(** What a device constructor asks of libssh2 when it opens with the
    effective mode [m]: one [libssh2_sftp_open_ex] with the translation of
    [m], or nothing when the translation throws. *)
Lemma open_file_calls (std : ios_base) (srv : sftp_server) (path : string)
    (m : Z) (w : world) :
  calls (snd (open_file std srv path m w)) =
  (calls w ++
     match openmode_to_libssh2_flags std m with
     | Return flags =>
         [libssh2_sftp_open_ex path flags mode_0644 LIBSSH2_SFTP_OPENFILE]
     | Throw _ => []
     end)%list.
Proof.
  unfold open_file, bind, lift.
  destruct (openmode_to_libssh2_flags std m) as [flags | e]; cbn.
  - unfold sftp.open.
    destruct (open_ex_answer srv _ _ _ _);
      [| rewrite throw_last_error_run]; reflexivity.
  - rewrite app_nil_r. reflexivity.
Qed.

(** C4 (amended).  The input device opens the file as the read/write device
    would with [in] added to the caller's mode, and the output device as it
    would with [out] added; adding the flag sets it and leaves the other
    five flags as the caller gave them.  The read/write device itself adds
    nothing: it opens with the translation of the caller's mode. *)
Theorem devices_effective_mode (std : ios_base) (srv : sftp_server)
    (path : string) (m : Z) (w : world) :
  bitmask_ok std = true ->
  (sftp_input_device std srv path m w =
     sftp_io_device std srv path (Z.lor m (openmode.in_ std)) w /\
   contains (Z.lor m (openmode.in_ std)) (openmode.in_ std) = true /\
   forall f, In f (elements std) -> f <> openmode.in_ std ->
     contains (Z.lor m (openmode.in_ std)) f = contains m f) /\
  (sftp_output_device std srv path m w =
     sftp_io_device std srv path (Z.lor m (openmode.out std)) w /\
   contains (Z.lor m (openmode.out std)) (openmode.out std) = true /\
   forall f, In f (elements std) -> f <> openmode.out std ->
     contains (Z.lor m (openmode.out std)) f = contains m f) /\
  calls (snd (sftp_io_device std srv path m w)) =
    (calls w ++
       match openmode_to_libssh2_flags std m with
       | Return flags =>
           [libssh2_sftp_open_ex path flags mode_0644 LIBSSH2_SFTP_OPENFILE]
       | Throw _ => []
       end)%list.
Proof.
  intros Hok.
  assert (Hin : In (openmode.in_ std) (elements std)) by (cbn; tauto).
  assert (Hout : In (openmode.out std) (elements std)) by (cbn; tauto).
  split; [| split]; [split; [| split] | split; [| split] |].
  - reflexivity.
  - apply contains_lor_same, (bitmask_ok_positive std); assumption.
  - intros f Hf Hne. apply contains_lor_other.
    apply (bitmask_ok_disjoint std); auto.
  - reflexivity.
  - apply contains_lor_same, (bitmask_ok_positive std); assumption.
  - intros f Hf Hne. apply contains_lor_other.
    apply (bitmask_ok_disjoint std); auto.
  - rewrite <- (open_file_calls std srv). unfold sftp_io_device, bind, ret.
    destruct (open_file std srv path m w) as [[h | e] w']; reflexivity.
Qed.

(** The constructors that take a [std::ios_base::openmode] translate it
    (which throws on [ate]) and then open as the other constructors do. *)
Lemma std_mode_constructors (std : ios_base) (srv : sftp_server)
    (path : string) (std_mode : Z) (w : world) :
  sftp_input_device_std std srv path std_mode w =
    bind (lift (translate_flags std std_mode))
      (sftp_input_device std srv path) w /\
  sftp_output_device_std std srv path std_mode w =
    bind (lift (translate_flags std std_mode))
      (sftp_output_device std srv path) w /\
  sftp_io_device_std std srv path std_mode w =
    bind (lift (translate_flags std std_mode))
      (sftp_io_device std srv path) w.
Proof.
  repeat split.
Qed.

(** With the Microsoft constants and a mode without any flag, the input
    device opens as the read/write device does with [in]. *)
Lemma devices_effective_mode_witness :
  sftp_input_device msvc short_server "/tmp/f" 0 fresh_world =
    sftp_io_device msvc short_server "/tmp/f"
      (Z.lor 0 (openmode.in_ msvc)) fresh_world /\
  contains (Z.lor 0 (openmode.in_ msvc)) (openmode.in_ msvc) = true.
Proof.
  destruct (devices_effective_mode msvc short_server "/tmp/f" 0 fresh_world
              eq_refl) as [[H1 [H2 _]] _].
  split; [exact H1 | exact H2].
Defined.

(** C4 as stated fails for the read/write device: given [in] alone it
    opens the file with READ alone, not with the READ|WRITE that [in | out]
    translates to. *)
Lemma io_device_adds_no_flag :
  calls (snd (sftp_io_device msvc short_server "/tmp/f" (openmode.in_ msvc)
                fresh_world)) =
    [libssh2_sftp_open_ex "/tmp/f" LIBSSH2_FXF_READ mode_0644
       LIBSSH2_SFTP_OPENFILE] /\
  contains LIBSSH2_FXF_READ LIBSSH2_FXF_WRITE = false /\
  calls (snd (sftp_io_device msvc short_server "/tmp/f"
                (Z.lor (Z.lor (openmode.in_ msvc) (openmode.in_ msvc))
                   (openmode.out msvc))
                fresh_world)) =
    [libssh2_sftp_open_ex "/tmp/f"
       (Z.lor LIBSSH2_FXF_READ LIBSSH2_FXF_WRITE) mode_0644
       LIBSSH2_SFTP_OPENFILE].
Proof.
  repeat split.
Qed.

(** ** Seek *)

Lemma to_stream_offset_id (x : Z) :
  is_stream_offset x -> to_stream_offset x = x.
Proof.
  unfold is_stream_offset, to_stream_offset. intros Hx.
  destruct (Z_lt_le_dec x 0) as [Hneg | Hpos].
  - replace (x mod 2 ^ 64) with (x + 2 ^ 64).
    + destruct (Z.ltb_spec (x + 2 ^ 64) (2 ^ 63)); lia.
    + apply (Z.mod_unique _ _ (-1)); lia.
  - rewrite Z.mod_small by lia.
    destruct (Z.ltb_spec x (2 ^ 63)); lia.
Qed.

(** C5.  The target of a seek is the offset (from the start), the last
    known position plus the offset (from the current position) or the
    remote size, fetched by one fstat, plus the offset (from the end).
    Provided the target is a stream offset: when it is negative, seek
    throws [std::logic_error] and libssh2 is not asked to seek; otherwise
    libssh2 is asked to seek to the target, which is returned. *)
Theorem seek_moves_to_target (srv : sftp_server) (h : handle) (path : string)
    (off : Z) (way : seekdir) (w : world) (target : Z) :
  seek_target srv w h off way = Some target ->
  is_stream_offset target ->
  seek srv h path off way w =
    if target <? 0
    then (Throw (logic_error "Cannot seek before start of file"),
          logs (seek_queries h way) w)
    else (Return target,
          set_offset h target
            (logs (seek_queries h way ++ [libssh2_sftp_seek64 h target]) w)).
Proof.
  intros Htarget Hrange.
  destruct way as [| | | v]; cbn in Htarget.
  - injection Htarget as <-.
    unfold seek, bind, ret, throw, sftp.seek64. cbn.
    destruct (off <? 0); reflexivity.
  - injection Htarget as <-.
    unfold seek, bind, ret, throw, sftp.seek64, sftp.tell64. cbn.
    rewrite (to_stream_offset_id _ Hrange).
    destruct (offset w h + off <? 0); reflexivity.
  - unfold seek, bind, ret, throw, throw_last_error, sftp.seek64,
      sftp.fstat_ex.
    destruct (fstat_ex_answer srv h) as [rc filesize]; cbn in *.
    destruct (rc =? 0); [| discriminate Htarget].
    injection Htarget as <-. cbn.
    rewrite (to_stream_offset_id _ Hrange).
    destruct (filesize + off <? 0); reflexivity.
  - discriminate Htarget.
Qed.

(** Ten bytes before the end of a file of 100 bytes. *)
Lemma seek_moves_to_target_witness :
  seek short_server 7%nat "/tmp/f" (-10) ios_end fresh_world =
    (Return 90,
     set_offset 7%nat 90
       (logs [libssh2_sftp_fstat_ex 7%nat; libssh2_sftp_seek64 7%nat 90]
          fresh_world)).
Proof.
  apply (seek_moves_to_target short_server 7%nat "/tmp/f" (-10) ios_end
           fresh_world 90).
  - reflexivity.
  - unfold is_stream_offset. lia.
Defined.

(** Past the range of stream offsets the sum wraps around: one byte on from
    position 2^63 - 1 is taken for a position before the start. *)
Example seek_sum_wraps_around :
  fst (seek short_server 7%nat "/tmp/f" 1 ios_cur
         (set_offset 7%nat (2 ^ 63 - 1) fresh_world)) =
    Throw (logic_error "Cannot seek before start of file").
Proof. reflexivity. Qed.

(** ** The read loop *)

Lemma sftp_read_run (srv : sftp_server) (h : handle) (c len : Z) (w : world) :
  exists w1,
    calls w1 = (calls w ++ [libssh2_sftp_read h c len])%list /\
    transfers w1 = S (transfers w) /\
    sftp.read srv h c len w =
      (if read_answer srv (transfers w) len <? 0
       then Throw (ssh_error (last_errno srv)
                (sftp_detail srv "libssh2_sftp_read") None)
       else Return (read_answer srv (transfers w) len),
       w1).
Proof.
  unfold sftp.read, sftp.read_call, bind, throw_last_error, sftp_detail,
    throw, ret.
  set (a := read_answer srv (transfers w) len).
  exists (next_transfer
            (if 0 <? a
             then set_offset h (offset w h + a)
                    (log (libssh2_sftp_read h c len) w)
             else log (libssh2_sftp_read h c len) w)).
  destruct (0 <? a), (a <? 0), (last_errno srv =? LIBSSH2_ERROR_SFTP_PROTOCOL);
    repeat split.
Qed.

Section ReadLoop.
Variable srv : sftp_server.
Variable h : handle.
Variable B : Z.

(** libssh2 never reads more than the length it is given. *)
Hypothesis answer_le : forall n len, 0 <= len -> read_answer srv n len <= len.

Lemma read_loop_full_read (fuel : nat) :
  forall (count : Z) (w : world),
    0 <= count <= B ->
    (Z.to_nat (B - count) < fuel)%nat ->
    exists trace total why w',
      read_loop srv fuel h B count w =
        (match why with
         | transfer_failed =>
             Throw (ssh_error (last_errno srv)
                (sftp_detail srv "libssh2_sftp_read") None)
         | _ => Return (Some total)
         end, w') /\
      calls w' = (calls w ++ trace)%list /\
      full_read srv h B (transfers w) count trace total why /\
      count <= total <= B /\
      (why = all_transferred -> total = B) /\
      (why = transfer_failed ->
       exists n len, 0 <= len /\ read_answer srv n len < 0).
Proof.
  induction fuel as [| fuel IH]; intros count w Hc Hfuel; [lia |].
  cbn [read_loop]. unfold bind at 1.
  destruct (sftp_read_run srv h count (B - count) w)
    as (w1 & Hcalls & Htransfers & ->).
  pose proof (answer_le (transfers w) (B - count) ltac:(lia)) as Ha.
  destruct (Z.ltb_spec (read_answer srv (transfers w) (B - count)) 0)
    as [Hneg | Hnonneg].
  - exists [libssh2_sftp_read h count (B - count)], count, transfer_failed, w1.
    repeat split; try assumption; try lia; try discriminate.
    + now apply read_failed.
    + intros _. exists (transfers w), (B - count). lia.
  - destruct (Z.eqb_spec (read_answer srv (transfers w) (B - count)) 0)
      as [Hzero | Hsome].
    + exists [libssh2_sftp_read h count (B - count)], count, end_of_file, w1.
      repeat split; try assumption; try lia; try discriminate.
      now apply read_eof.
    + destruct (Z.ltb_spec (count + read_answer srv (transfers w) (B - count)) B)
        as [Hshort | Hfull].
      * destruct (IH (count + read_answer srv (transfers w) (B - count)) w1)
          as (trace & total & why & w' & Hrun & Htrace & Hfr & Htotal & Hwhy);
          [lia | lia |].
        exists (libssh2_sftp_read h count (B - count) :: trace), total, why, w'.
        split; [exact Hrun |]. split.
        { rewrite Htrace, Hcalls, <- app_assoc. reflexivity. }
        split.
        { apply read_more; [lia | lia |]. rewrite <- Htransfers. exact Hfr. }
        split; [lia | exact Hwhy].
      * exists [libssh2_sftp_read h count (B - count)],
          (count + read_answer srv (transfers w) (B - count)),
          all_transferred, w1.
        repeat split; try assumption; try lia; try discriminate.
        apply read_filled; lia.
Qed.
End ReadLoop.

(** C6.  For a buffer of [B] bytes and a primitive whose results are never
    negative (and never more than the length asked), the read returns, as
    soon as the fuel exceeds [B]: transfer calls are issued one after the
    other, each into the unfilled remainder of the buffer, until the buffer
    is full or a call returns zero; the total placed in the buffer is
    returned, and it is less than [B] only when a call returned zero. *)
Theorem read_fills_buffer (srv : sftp_server) (h : handle) (path : string)
    (B : Z) (fuel : nat) (w : world) :
  0 <= B ->
  (forall n len, 0 <= len -> 0 <= read_answer srv n len <= len) ->
  (Z.to_nat B < fuel)%nat ->
  exists trace total why w',
    read srv fuel h path B w = (Return (Some total), w') /\
    calls w' = (calls w ++ trace)%list /\
    full_read srv h B (transfers w) 0 trace total why /\
    0 <= total <= B /\
    (total = B \/ why = end_of_file).
Proof.
  intros HB Hanswer Hfuel.
  destruct (read_loop_full_read srv h B
              (fun n len Hlen => proj2 (Hanswer n len Hlen)) fuel 0 w)
    as (trace & total & why & w' & Hrun & Htrace & Hfr & Htotal & Hfull & Hfail);
    [lia | rewrite Z.sub_0_r; exact Hfuel |].
  exists trace, total, why, w'.
  unfold read, rethrowing. rewrite Hrun.
  destruct why.
  - repeat split; try assumption; try lia. left. now apply Hfull.
  - repeat split; try assumption; try lia. now right.
  - destruct (Hfail eq_refl) as (n & len & Hlen & Hneg).
    pose proof (Hanswer n len Hlen). lia.
Qed.

(** Ten bytes from a server that gives three at a time. *)
Lemma read_fills_buffer_witness :
  exists trace total why w',
    read short_server 11 7%nat "/tmp/f" 10 fresh_world =
      (Return (Some total), w') /\
    calls w' = (calls fresh_world ++ trace)%list /\
    full_read short_server 7%nat 10 (transfers fresh_world) 0 trace total why /\
    0 <= total <= 10 /\
    (total = 10 \/ why = end_of_file).
Proof.
  apply (read_fills_buffer short_server 7%nat "/tmp/f" 10 11 fresh_world).
  - lia.
  - intros n len Hlen. cbn. lia.
  - cbn. lia.
Defined.

(** The run of that read: four calls, the last for the one byte left. *)
Example read_ten_by_three :
  let r := read short_server 11 7%nat "/tmp/f" 10 fresh_world in
  fst r = Return (Some 10) /\
  calls (snd r) =
    [libssh2_sftp_read 7%nat 0 10; libssh2_sftp_read 7%nat 3 7;
     libssh2_sftp_read 7%nat 6 4; libssh2_sftp_read 7%nat 9 1].
Proof. split; reflexivity. Qed.

(** ** The write loop *)

Lemma sftp_write_run (srv : sftp_server) (h : handle) (c len : Z) (w : world) :
  exists w1,
    calls w1 = (calls w ++ [libssh2_sftp_write h c len])%list /\
    transfers w1 = S (transfers w) /\
    sftp.write srv h c len w =
      (if write_answer srv (transfers w) len <? 0
       then Throw (ssh_error (last_errno srv)
                (sftp_detail srv "libssh2_sftp_write") None)
       else Return (write_answer srv (transfers w) len),
       w1).
Proof.
  unfold sftp.write, sftp.write_call, bind, throw_last_error, sftp_detail,
    throw, ret.
  set (a := write_answer srv (transfers w) len).
  exists (next_transfer
            (if 0 <? a
             then set_offset h (offset w h + a)
                    (log (libssh2_sftp_write h c len) w)
             else log (libssh2_sftp_write h c len) w)).
  destruct (0 <? a), (a <? 0), (last_errno srv =? LIBSSH2_ERROR_SFTP_PROTOCOL);
    repeat split.
Qed.

Section WriteLoop.
Variable srv : sftp_server.
Variable h : handle.
Variable N : Z.

(** libssh2 never accepts more than the length it is given, and in the
    steady state it never accepts nothing of a non-empty tail. *)
Hypothesis answer_le : forall n len, 0 <= len -> write_answer srv n len <= len.
Hypothesis answer_some : forall n len, 0 < len -> write_answer srv n len <> 0.

Lemma write_loop_full_write (fuel : nat) :
  forall (count : Z) (w : world),
    0 <= count <= N ->
    (Z.to_nat (N - count) < fuel)%nat ->
    exists trace total why w',
      write_loop srv fuel h N count w =
        (match why with
         | all_transferred => Return (Some N)
         | _ => Throw (ssh_error (last_errno srv)
                (sftp_detail srv "libssh2_sftp_write") None)
         end, w') /\
      calls w' = (calls w ++ trace)%list /\
      full_write srv h N (transfers w) count trace total why /\
      (why = all_transferred /\ total = N \/ why = transfer_failed).
Proof.
  induction fuel as [| fuel IH]; intros count w Hc Hfuel; [lia |].
  cbn [write_loop]. unfold bind at 1.
  destruct (sftp_write_run srv h count (N - count) w)
    as (w1 & Hcalls & Htransfers & ->).
  pose proof (answer_le (transfers w) (N - count) ltac:(lia)) as Ha.
  destruct (Z.ltb_spec (write_answer srv (transfers w) (N - count)) 0)
    as [Hneg | Hnonneg].
  - exists [libssh2_sftp_write h count (N - count)], count, transfer_failed, w1.
    repeat split; try assumption.
    + now apply write_failed.
    + now right.
  - destruct (Z.ltb_spec (count + write_answer srv (transfers w) (N - count)) N)
      as [Hshort | Hfull].
    + pose proof (answer_some (transfers w) (N - count) ltac:(lia)) as Hsome.
      destruct (IH (count + write_answer srv (transfers w) (N - count)) w1)
        as (trace & total & why & w' & Hrun & Htrace & Hfw & Hwhy);
        [lia | lia |].
      exists (libssh2_sftp_write h count (N - count) :: trace), total, why, w'.
      split; [exact Hrun |]. split.
      { rewrite Htrace, Hcalls, <- app_assoc. reflexivity. }
      split.
      { apply write_more; [lia | lia |]. rewrite <- Htransfers. exact Hfw. }
      exact Hwhy.
    + assert (E : count + write_answer srv (transfers w) (N - count) = N)
        by lia.
      exists [libssh2_sftp_write h count (N - count)],
        (count + write_answer srv (transfers w) (N - count)),
        all_transferred, w1.
      split; [rewrite E; reflexivity |].
      split; [exact Hcalls |].
      split; [apply write_accepted; lia |].
      left. split; [reflexivity | exact E].
Qed.
End WriteLoop.

(** C7.  For [N] bytes of data and a primitive that accepts no more than it
    is given and, of a non-empty tail, never nothing, the write returns or
    throws as soon as the fuel exceeds [N]: transfer calls are issued one
    after the other, each on the unwritten tail, until all [N] bytes are
    accepted, and then exactly [N] is returned; the only other outcome is
    the error of a failing call, raised with the path: the session's last
    error, as the [sftp_error] that names the SFTP code and
    [libssh2_sftp_write] when it is an SFTP protocol error. *)
Theorem write_accepts_all (srv : sftp_server) (h : handle) (path : string)
    (N : Z) (fuel : nat) (w : world) :
  0 <= N ->
  (forall n len, 0 <= len -> write_answer srv n len <= len) ->
  (forall n len, 0 < len -> write_answer srv n len <> 0) ->
  (Z.to_nat N < fuel)%nat ->
  exists trace total why w',
    calls w' = (calls w ++ trace)%list /\
    full_write srv h N (transfers w) 0 trace total why /\
    (why = all_transferred /\ total = N /\
     write srv fuel h path N w = (Return (Some N), w')
     \/
     why = transfer_failed /\
     write srv fuel h path N w =
       (Throw (ssh_error (last_errno srv)
                 (if last_errno srv =? LIBSSH2_ERROR_SFTP_PROTOCOL
                  then Some (last_sftp_errno srv, "libssh2_sftp_write")
                  else None)
                 (Some path)),
        w')).
Proof.
  intros HN Hle Hsome Hfuel.
  destruct (write_loop_full_write srv h N Hle Hsome fuel 0 w)
    as (trace & total & why & w' & Hrun & Htrace & Hfw & Hwhy);
    [lia | rewrite Z.sub_0_r; exact Hfuel |].
  exists trace, total, why, w'.
  split; [exact Htrace |]. split; [exact Hfw |].
  unfold write, rethrowing, bind. rewrite Hrun.
  destruct Hwhy as [[-> ->] | ->].
  - left. rewrite Z.eqb_refl. repeat split.
  - right. repeat split.
Qed.

(** Ten bytes to a server that accepts four at a time. *)
Lemma write_accepts_all_witness :
  exists trace total why w',
    calls w' = (calls fresh_world ++ trace)%list /\
    full_write short_server 7%nat 10 (transfers fresh_world) 0 trace total why /\
    (why = all_transferred /\ total = 10 /\
     write short_server 11 7%nat "/tmp/f" 10 fresh_world =
       (Return (Some 10), w')
     \/
     why = transfer_failed /\
     write short_server 11 7%nat "/tmp/f" 10 fresh_world =
       (Throw (ssh_error (last_errno short_server)
                 (if last_errno short_server =? LIBSSH2_ERROR_SFTP_PROTOCOL
                  then Some (last_sftp_errno short_server,
                             "libssh2_sftp_write")
                  else None)
                 (Some "/tmp/f")),
        w')).
Proof.
  apply (write_accepts_all short_server 7%nat "/tmp/f" 10 11 fresh_world).
  - lia.
  - intros n len Hlen. cbn. lia.
  - intros n len Hlen. cbn. lia.
  - cbn. lia.
Defined.

(** The run of that write: three calls, the last for the two bytes left. *)
Example write_ten_by_four :
  let r := write short_server 11 7%nat "/tmp/f" 10 fresh_world in
  fst r = Return (Some 10) /\
  calls (snd r) =
    [libssh2_sftp_write 7%nat 0 10; libssh2_sftp_write 7%nat 4 6;
     libssh2_sftp_write 7%nat 8 2].
Proof. split; reflexivity. Qed.

(** Without the steady state there is no such guarantee: against a
    primitive that keeps accepting nothing the loop never finishes. *)
Lemma write_loop_spins (srv : sftp_server) (h : handle) (N : Z) :
  0 < N ->
  (forall n len, write_answer srv n len = 0) ->
  forall (fuel : nat) (w : world),
    fst (write_loop srv fuel h N 0 w) = Return None.
Proof.
  intros HN Hzero. induction fuel as [| fuel IH]; intros w; [reflexivity |].
  cbn [write_loop]. unfold bind at 1.
  destruct (sftp_write_run srv h 0 (N - 0) w) as (w1 & _ & _ & ->).
  rewrite Hzero. cbn.
  destruct (Z.ltb_spec 0 N); [apply IH | lia].
Qed.

(** ** The session guard *)

(** What the socket-bound constructor does, case by case. *)
Lemma session_state_connected_run (lib : session.library) (socket : Z)
    (message : string) (w : session.world) :
  session.session_state_connected lib socket message w =
  match session.init_ex_answer lib with
  | None =>
      (Throw bad_alloc,
       {| session.calls :=
            session.calls w ++ [session.libssh2_session_init_ex];
          session.allocated := session.allocated w |})
  | Some s =>
      let ec :=
        if negb (session.startup_answer lib s socket =? 0)
        then fst (session.last_error lib s) else 0 in
      if truthy ec then
        (Throw (system_error ec (snd (session.last_error lib s))),
         {| session.calls :=
              session.calls w ++
                [session.libssh2_session_init_ex;
                 session.libssh2_session_startup s socket;
                 session.libssh2_session_free s];
            session.allocated := session.allocated w |})
      else
        (Return {| session.m_session := s;
                   session.m_disconnection_message := Some message |},
         {| session.calls :=
              session.calls w ++
                [session.libssh2_session_init_ex;
                 session.libssh2_session_startup s socket];
            session.allocated := s :: session.allocated w |})
  end.
Proof.
  unfold session.session_state_connected, bind, session.init, session.startup,
    session.session_free, session.log, throw, ret.
  destruct (session.init_ex_answer lib) as [s |]; [| reflexivity].
  cbn. destruct (session.startup_answer lib s socket =? 0); cbn.
  - rewrite <- app_assoc. reflexivity.
  - destruct (session.last_error lib s) as [ec error_message]; cbn.
    destruct (truthy ec); cbn.
    + rewrite Nat.eqb_refl, <- !app_assoc. reflexivity.
    + rewrite <- app_assoc. reflexivity.
Qed.

(** C8.  When the handshake fails, the constructor throws a
    [system_error] carrying the code and message of the session's last
    error, having freed the session it allocated once: the calls made are
    the allocation, the handshake and one free, and no session stays
    allocated.  No guard is returned. *)
Theorem failed_handshake_frees_once_and_throws (lib : session.library)
    (socket : Z) (message : string) (w : session.world) (s : handle) :
  session.init_ex_answer lib = Some s ->
  session.startup_answer lib s socket <> 0 ->
  fst (session.last_error lib s) <> 0 ->
  session.session_state_connected lib socket message w =
    (Throw (system_error (fst (session.last_error lib s))
              (snd (session.last_error lib s))),
     {| session.calls :=
          session.calls w ++
            [session.libssh2_session_init_ex;
             session.libssh2_session_startup s socket;
             session.libssh2_session_free s];
        session.allocated := session.allocated w |}).
Proof.
  intros Hinit Hrc Hec. rewrite session_state_connected_run, Hinit. cbn zeta.
  destruct (Z.eqb_spec (session.startup_answer lib s socket) 0) as [E | _];
    [contradiction |].
  cbn [negb]. unfold truthy.
  destruct (Z.eqb_spec (fst (session.last_error lib s)) 0) as [E | _];
    [contradiction | reflexivity].
Qed.

(** A handshake that fails on the key exchange. *)
Lemma failed_handshake_frees_once_and_throws_witness :
  session.session_state_connected failing_library 5 "bye" no_session =
    (Throw (system_error (-5) "Unable to exchange encryption keys"),
     {| session.calls :=
          [session.libssh2_session_init_ex;
           session.libssh2_session_startup 3%nat 5;
           session.libssh2_session_free 3%nat];
        session.allocated := [] |}).
Proof.
  apply (failed_handshake_frees_once_and_throws failing_library 5 "bye"
           no_session 3%nat).
  - reflexivity.
  - cbn. lia.
  - cbn. lia.
Defined.

(** C9.  The destructor returns, whatever libssh2 answers.  It asks for
    the disconnection once when the guard holds a disconnection message
    and not at all otherwise, ignores the outcome, and then frees the
    session once.  A guard holds a message exactly when it was built by the
    socket-bound constructor, which returns one only when the handshake
    succeeded; the guard of the other constructor holds none. *)
Theorem destroy_disconnects_if_started_then_frees (lib : session.library)
    (st : session.session_state) (w : session.world) :
  session.destroy lib st w =
    (Return tt,
     {| session.calls :=
          session.calls w ++
            match session.m_disconnection_message st with
            | Some message =>
                [session.libssh2_session_disconnect (session.m_session st)
                   message]
            | None => []
            end ++
            [session.libssh2_session_free (session.m_session st)];
        session.allocated :=
          session.remove_one (session.m_session st) (session.allocated w) |})
  /\
  (forall socket message w0,
     match fst (session.session_state_connected lib socket message w0) with
     | Return st0 =>
         session.m_disconnection_message st0 = Some message /\
         exists s,
           session.init_ex_answer lib = Some s /\
           st0 = {| session.m_session := s;
                    session.m_disconnection_message := Some message |} /\
           (session.startup_answer lib s socket = 0 \/
            fst (session.last_error lib s) = 0)
     | Throw _ => True
     end)
  /\
  (forall w0,
     match fst (session.session_state_unconnected lib w0) with
     | Return st0 => session.m_disconnection_message st0 = None
     | Throw _ => True
     end).
Proof.
  split; [| split].
  - unfold session.destroy, bind, session.disconnect, session.session_free,
      session.log, ret.
    destruct (session.m_disconnection_message st) as [message |]; cbn.
    + destruct (negb (session.disconnect_answer lib (session.m_session st)
                        message =? 0)); cbn;
        rewrite <- app_assoc; reflexivity.
    + reflexivity.
  - intros socket message w0. rewrite session_state_connected_run.
    destruct (session.init_ex_answer lib) as [s |]; [| exact I].
    cbn zeta.
    destruct (Z.eqb_spec (session.startup_answer lib s socket) 0) as [E | E];
      cbn [negb].
    + cbn. split; [reflexivity |]. exists s. repeat split. now left.
    + unfold truthy.
      destruct (Z.eqb_spec (fst (session.last_error lib s)) 0) as [E0 | E0];
        cbn; [| exact I].
      split; [reflexivity |]. exists s. repeat split. now right.
  - intros w0. unfold session.session_state_unconnected, bind, session.init, ret.
    destruct (session.init_ex_answer lib); cbn; [reflexivity | exact I].
Qed.

(** A guard whose handshake succeeded, destroyed while the disconnection
    fails: one disconnect, one free, no exception. *)
Example destroy_with_failing_disconnect :
  session.destroy failing_library
    {| session.m_session := 3%nat;
       session.m_disconnection_message := Some "bye" |}
    {| session.calls := []; session.allocated := [3%nat] |} =
  (Return tt,
   {| session.calls :=
        [session.libssh2_session_disconnect 3%nat "bye";
         session.libssh2_session_free 3%nat];
      session.allocated := [] |}).
Proof. reflexivity. Qed.

(** * Further properties *)

(** ** Modes given as [std::ios_base::openmode] *)

Lemma contains_lor (a b f : Z) :
  contains (Z.lor a b) f = contains a f || contains b f.
Proof.
  unfold contains, truthy. rewrite Z.land_lor_distr_l.
  destruct (Z.eqb_spec (Z.land a f) 0) as [Ea | Ea],
    (Z.eqb_spec (Z.land b f) 0) as [Eb | Eb]; cbn.
  - rewrite Ea, Eb. reflexivity.
  - destruct (Z.eqb_spec (Z.lor (Z.land a f) (Z.land b f)) 0) as [E | E];
      [| reflexivity].
    apply Z.lor_eq_0_iff in E. tauto.
  - destruct (Z.eqb_spec (Z.lor (Z.land a f) (Z.land b f)) 0) as [E | E];
      [| reflexivity].
    apply Z.lor_eq_0_iff in E. tauto.
  - destruct (Z.eqb_spec (Z.lor (Z.land a f) (Z.land b f)) 0) as [E | E];
      [| reflexivity].
    apply Z.lor_eq_0_iff in E. tauto.
Qed.

Lemma contains_0_l (f : Z) : contains 0 f = false.
Proof. reflexivity. Qed.

Lemma contains_same (std : ios_base) (f : Z) :
  bitmask_ok std = true -> In f (elements std) -> contains f f = true.
Proof.
  intros Hok Hf. unfold contains, truthy. rewrite Z.land_diag.
  pose proof (bitmask_ok_positive std f Hok Hf).
  destruct (Z.eqb_spec f 0); [lia | reflexivity].
Qed.

Lemma contains_other (std : ios_base) (f g : Z) :
  bitmask_ok std = true ->
  In f (elements std) -> In g (elements std) -> Z.land f g = 0 ->
  contains f g = false.
Proof.
  intros _ _ _ E. unfold contains. rewrite E. reflexivity.
Qed.

(** The six flags of a valid bitmask, two by two. *)
Lemma bitmask_ok_table (std : ios_base) :
  bitmask_ok std = true ->
  forall f g, In f (elements std) -> In g (elements std) ->
    contains f g = true \/ contains f g = false /\ Z.land f g = 0.
Proof.
  intros Hok f g Hf Hg.
  destruct (Z.eq_dec f g) as [-> | Hne].
  - left. now apply (contains_same std).
  - right. pose proof (bitmask_ok_disjoint std f g Hok Hf Hg Hne) as E.
    split; [| exact E]. unfold contains. rewrite E. reflexivity.
Qed.

Lemma translation_returns_without_nocreate (std : ios_base) (m : Z) :
  contains m openmode.nocreate = false ->
  exists flags, openmode_to_libssh2_flags std m = Return flags.
Proof.
  intros Hnc. flag_cases; eexists; reflexivity.
Qed.

Lemma truthy_positive (f : Z) : 0 < f -> truthy f = true.
Proof.
  intros Hf. unfold truthy. destruct (Z.eqb_spec f 0); [lia | reflexivity].
Qed.

(** How the four flags that [translate_flags] may set answer to the six
    tests of [openmode_to_libssh2_flags]. *)
Lemma bitmask_ok_contains (std : ios_base) :
  bitmask_ok std = true ->
  let i := openmode.in_ std in
  let o := openmode.out std in
  let a := openmode.app std in
  let t := openmode.trunc std in
  let nc := openmode.nocreate in
  let nr := openmode.noreplace in
  (contains i i = true /\ contains i o = false /\ contains i a = false /\
   contains i t = false /\ contains i nc = false /\ contains i nr = false) /\
  (contains o i = false /\ contains o o = true /\ contains o a = false /\
   contains o t = false /\ contains o nc = false /\ contains o nr = false) /\
  (contains a i = false /\ contains a o = false /\ contains a a = true /\
   contains a t = false /\ contains a nc = false /\ contains a nr = false) /\
  (contains t i = false /\ contains t o = false /\ contains t a = false /\
   contains t t = true /\ contains t nc = false /\ contains t nr = false).
Proof.
  unfold bitmask_ok, elements. cbn [forallb pairwise_disjoint].
  rewrite !andb_true_iff, !Z.eqb_eq, !Z.ltb_lt.
  intros [(Hi & Ho & Ha & Ht & _)
            ((Hio & Hia & Hit & Hinc & Hinr & _) &
             (Hoa & Hot & Honc & Honr & _) &
             (Hat & Hanc & Hanr & _) &
             (Htnc & Htnr & _) & _)].
  cbn zeta. unfold contains.
  rewrite !Z.land_diag, Hio, Hia, Hit, Hinc, Hinr, Hoa, Hot, Honc, Honr,
    Hat, Hanc, Hanr, Htnc, Htnr.
  rewrite (Z.land_comm (openmode.out std) (openmode.in_ std)), Hio.
  rewrite (Z.land_comm (openmode.app std) (openmode.in_ std)), Hia.
  rewrite (Z.land_comm (openmode.app std) (openmode.out std)), Hoa.
  rewrite (Z.land_comm (openmode.trunc std) (openmode.in_ std)), Hit.
  rewrite (Z.land_comm (openmode.trunc std) (openmode.out std)), Hot.
  rewrite (Z.land_comm (openmode.trunc std) (openmode.app std)), Hat.
  rewrite (truthy_positive _ Hi), (truthy_positive _ Ho),
    (truthy_positive _ Ha), (truthy_positive _ Ht).
  repeat split; reflexivity.
Qed.

(** X1.  [translate_flags] throws exactly when the standard mode has
    [ate].  Otherwise the mode it returns has [in], [out], [app] and
    [trunc] as the standard mode has them and neither [nocreate] nor
    [noreplace], so [openmode_to_libssh2_flags] never rejects it. *)
Theorem translate_flags_keeps_the_standard_flags (std : ios_base)
    (std_mode : Z) :
  bitmask_ok std = true ->
  match translate_flags std std_mode with
  | Throw e =>
      truthy (Z.land std_mode (ios_ate std)) = true /\
      e = invalid_argument "ate flag not yet supported"
  | Return m =>
      truthy (Z.land std_mode (ios_ate std)) = false /\
      contains m (openmode.in_ std) = truthy (Z.land std_mode (ios_in std)) /\
      contains m (openmode.out std) = truthy (Z.land std_mode (ios_out std)) /\
      contains m (openmode.app std) = truthy (Z.land std_mode (ios_app std)) /\
      contains m (openmode.trunc std) =
        truthy (Z.land std_mode (ios_trunc std)) /\
      contains m openmode.nocreate = false /\
      contains m openmode.noreplace = false /\
      exists flags, openmode_to_libssh2_flags std m = Return flags
  end.
Proof.
  intros Hok.
  destruct (bitmask_ok_contains std Hok)
    as ((Hii & Hio & Hia & Hit & Hinc & Hinr) &
        (Hoi & Hoo & Hoa & Hot & Honc & Honr) &
        (Hai & Hao & Haa & Hat & Hanc & Hanr) &
        (Hti & Hto & Hta & Htt & Htnc & Htnr)).
  unfold translate_flags.
  destruct (truthy (Z.land std_mode (ios_ate std))); [split; reflexivity |].
  destruct (truthy (Z.land std_mode (ios_in std))),
    (truthy (Z.land std_mode (ios_out std))),
    (truthy (Z.land std_mode (ios_app std))),
    (truthy (Z.land std_mode (ios_trunc std)));
    (split; [reflexivity |]);
    repeat (split;
            [rewrite ?contains_lor, ?contains_0_l, ?Hii, ?Hio, ?Hia, ?Hit,
               ?Hinc, ?Hinr, ?Hoi, ?Hoo, ?Hoa, ?Hot, ?Honc, ?Honr, ?Hai,
               ?Hao, ?Haa, ?Hat, ?Hanc, ?Hanr, ?Hti, ?Hto, ?Hta, ?Htt,
               ?Htnc, ?Htnr; reflexivity |]);
    apply translation_returns_without_nocreate;
    rewrite ?contains_lor, ?contains_0_l, ?Hinc, ?Honc, ?Hanc, ?Htnc;
    reflexivity.
Qed.

(** [in | out | trunc | binary] of libstdc++ (60) becomes
    [in | out | trunc]. *)
Lemma translate_flags_keeps_the_standard_flags_witness :
  match translate_flags libstdcxx 60 with
  | Throw e =>
      truthy (Z.land 60 (ios_ate libstdcxx)) = true /\
      e = invalid_argument "ate flag not yet supported"
  | Return m =>
      truthy (Z.land 60 (ios_ate libstdcxx)) = false /\
      contains m (openmode.in_ libstdcxx) =
        truthy (Z.land 60 (ios_in libstdcxx)) /\
      contains m (openmode.out libstdcxx) =
        truthy (Z.land 60 (ios_out libstdcxx)) /\
      contains m (openmode.app libstdcxx) =
        truthy (Z.land 60 (ios_app libstdcxx)) /\
      contains m (openmode.trunc libstdcxx) =
        truthy (Z.land 60 (ios_trunc libstdcxx)) /\
      contains m openmode.nocreate = false /\
      contains m openmode.noreplace = false /\
      exists flags, openmode_to_libssh2_flags libstdcxx m = Return flags
  end.
Proof.
  apply (translate_flags_keeps_the_standard_flags libstdcxx 60). reflexivity.
Defined.

(** ** What the devices ask of libssh2 *)

Lemma in_gives_READ (std : ios_base) (m flags : Z) :
  contains m (openmode.in_ std) = true ->
  openmode_to_libssh2_flags std m = Return flags ->
  contains flags LIBSSH2_FXF_READ = true.
Proof.
  intros Hin E. unfold openmode_to_libssh2_flags in E.
  unfold contains in Hin. rewrite Hin in E.
  destruct (truthy (Z.land m (openmode.out std))),
    (truthy (Z.land m (openmode.trunc std))),
    (truthy (Z.land m openmode.nocreate)),
    (truthy (Z.land m openmode.noreplace)),
    (truthy (Z.land m (openmode.app std)));
    cbn in E; inversion E; reflexivity.
Qed.

Lemma out_gives_WRITE (std : ios_base) (m flags : Z) :
  contains m (openmode.out std) = true ->
  openmode_to_libssh2_flags std m = Return flags ->
  contains flags LIBSSH2_FXF_WRITE = true.
Proof.
  intros Hout E. unfold openmode_to_libssh2_flags in E.
  unfold contains in Hout. rewrite Hout in E.
  destruct (truthy (Z.land m (openmode.in_ std))),
    (truthy (Z.land m (openmode.trunc std))),
    (truthy (Z.land m openmode.nocreate)),
    (truthy (Z.land m openmode.noreplace)),
    (truthy (Z.land m (openmode.app std)));
    cbn in E; inversion E; reflexivity.
Qed.

Lemma open_file_rejected (std : ios_base) (srv : sftp_server) (path : string)
    (m : Z) (w : world) (e : exn) :
  openmode_to_libssh2_flags std m = Throw e ->
  open_file std srv path m w = (Throw e, w).
Proof.
  intros E. unfold open_file, bind, lift. rewrite E. reflexivity.
Qed.

Lemma device_of_open_file (std : ios_base) (srv : sftp_server) (path : string)
    (m : Z) (w : world) :
  snd (sftp_io_device std srv path m w) = snd (open_file std srv path m w).
Proof.
  unfold sftp_io_device, bind, ret.
  destruct (open_file std srv path m w) as [[h | e] w']; reflexivity.
Qed.

(** X2.  Whatever mode the caller gives, the one call that the input
    device makes to open its file asks for READ and the one that the output
    device makes asks for WRITE; when the mode is rejected, no call is
    made. *)
Theorem devices_ask_for_their_direction (std : ios_base) (srv : sftp_server)
    (path : string) (m : Z) (w : world) :
  bitmask_ok std = true ->
  match openmode_to_libssh2_flags std (Z.lor m (openmode.in_ std)) with
  | Return flags =>
      contains flags LIBSSH2_FXF_READ = true /\
      calls (snd (sftp_input_device std srv path m w)) =
        (calls w ++
         [libssh2_sftp_open_ex path flags mode_0644 LIBSSH2_SFTP_OPENFILE])%list
  | Throw _ => snd (sftp_input_device std srv path m w) = w
  end /\
  match openmode_to_libssh2_flags std (Z.lor m (openmode.out std)) with
  | Return flags =>
      contains flags LIBSSH2_FXF_WRITE = true /\
      calls (snd (sftp_output_device std srv path m w)) =
        (calls w ++
         [libssh2_sftp_open_ex path flags mode_0644 LIBSSH2_SFTP_OPENFILE])%list
  | Throw _ => snd (sftp_output_device std srv path m w) = w
  end.
Proof.
  intros Hok.
  assert (Hin : contains (Z.lor m (openmode.in_ std)) (openmode.in_ std) = true).
  { apply contains_lor_same, (bitmask_ok_positive std); [exact Hok |].
    cbn. tauto. }
  assert (Hout :
    contains (Z.lor m (openmode.out std)) (openmode.out std) = true).
  { apply contains_lor_same, (bitmask_ok_positive std); [exact Hok |].
    cbn. tauto. }
  split.
  - change (sftp_input_device std srv path m w)
      with (sftp_io_device std srv path (Z.lor m (openmode.in_ std)) w).
    rewrite device_of_open_file.
    destruct (openmode_to_libssh2_flags std (Z.lor m (openmode.in_ std)))
      as [flags | e] eqn:E.
    + split; [exact (in_gives_READ std _ _ Hin E) |].
      rewrite open_file_calls, E. reflexivity.
    + rewrite (open_file_rejected std srv path _ w e E). reflexivity.
  - change (sftp_output_device std srv path m w)
      with (sftp_io_device std srv path (Z.lor m (openmode.out std)) w).
    rewrite device_of_open_file.
    destruct (openmode_to_libssh2_flags std (Z.lor m (openmode.out std)))
      as [flags | e] eqn:E.
    + split; [exact (out_gives_WRITE std _ _ Hout E) |].
      rewrite open_file_calls, E. reflexivity.
    + rewrite (open_file_rejected std srv path _ w e E). reflexivity.
Qed.

(** With the Microsoft constants and [trunc] alone: the input device asks
    for READ, the output device for WRITE, CREAT and TRUNC. *)
Lemma devices_ask_for_their_direction_witness :
  calls (snd (sftp_input_device msvc short_server "/tmp/f" 16 fresh_world)) =
    [libssh2_sftp_open_ex "/tmp/f" 1 mode_0644 LIBSSH2_SFTP_OPENFILE] /\
  calls (snd (sftp_output_device msvc short_server "/tmp/f" 16 fresh_world)) =
    [libssh2_sftp_open_ex "/tmp/f" 26 mode_0644 LIBSSH2_SFTP_OPENFILE].
Proof.
  destruct (devices_ask_for_their_direction msvc short_server "/tmp/f" 16
              fresh_world eq_refl) as [[_ H1] [_ H2]].
  split; [exact H1 | exact H2].
Defined.

(** X3.  An input device whose mode has no [out] opens its file with READ
    and nothing else, whichever of [app], [trunc], [nocreate] and
    [noreplace] the mode has: it cannot create or truncate the file. *)
Theorem input_device_without_out_only_reads (std : ios_base)
    (srv : sftp_server) (path : string) (m : Z) (w : world) :
  bitmask_ok std = true ->
  contains m (openmode.out std) = false ->
  calls (snd (sftp_input_device std srv path m w)) =
    (calls w ++
     [libssh2_sftp_open_ex path LIBSSH2_FXF_READ mode_0644
        LIBSSH2_SFTP_OPENFILE])%list.
Proof.
  intros Hok Hout.
  assert (Hin : contains (Z.lor m (openmode.in_ std)) (openmode.in_ std) = true).
  { apply contains_lor_same, (bitmask_ok_positive std); [exact Hok |].
    cbn. tauto. }
  assert (Hout' :
    contains (Z.lor m (openmode.in_ std)) (openmode.out std) = false).
  { rewrite contains_lor_other; [exact Hout |].
    destruct (bitmask_ok_contains std Hok) as ((_ & Hio & _) & _).
    unfold contains, truthy in Hio.
    destruct (Z.eqb_spec (Z.land (openmode.in_ std) (openmode.out std)) 0);
      [assumption | discriminate]. }
  change (sftp_input_device std srv path m w)
    with (sftp_io_device std srv path (Z.lor m (openmode.in_ std)) w).
  rewrite device_of_open_file, open_file_calls.
  replace (openmode_to_libssh2_flags std (Z.lor m (openmode.in_ std)))
    with (Return (A := Z) LIBSSH2_FXF_READ); [reflexivity |].
  symmetry. unfold openmode_to_libssh2_flags. unfold contains in Hin, Hout'.
  rewrite Hin, Hout'. reflexivity.
Qed.

(** [trunc | nocreate | noreplace] with the libstdc++ constants (224). *)
Lemma input_device_without_out_only_reads_witness :
  calls (snd (sftp_input_device libstdcxx short_server "/tmp/f" 224
                fresh_world)) =
    (calls fresh_world ++
     [libssh2_sftp_open_ex "/tmp/f" LIBSSH2_FXF_READ mode_0644
        LIBSSH2_SFTP_OPENFILE])%list.
Proof.
  apply (input_device_without_out_only_reads libstdcxx short_server "/tmp/f"
           224 fresh_world); reflexivity.
Defined.

(** X4.  When libssh2 refuses to open the file, the device constructor
    throws an [ssh_error] with the session's last error code and with no
    file name attached; the one call made is the refused open, and no
    device is returned.  (The input and output devices are this
    constructor at the mode with their flag added.) *)
Theorem refused_open_throws (std : ios_base) (srv : sftp_server)
    (path : string) (m : Z) (w : world) (flags : Z) :
  openmode_to_libssh2_flags std m = Return flags ->
  open_ex_answer srv path flags mode_0644 LIBSSH2_SFTP_OPENFILE = None ->
  exists api,
    sftp_io_device std srv path m w =
      (Throw (ssh_error (last_errno srv) api None),
       log (libssh2_sftp_open_ex path flags mode_0644 LIBSSH2_SFTP_OPENFILE)
         w).
Proof.
  intros Hflags Hnull. exists (sftp_detail srv "libssh2_sftp_open_ex").
  unfold sftp_io_device, open_file, bind, lift, sftp.open.
  rewrite Hflags, Hnull. cbn. rewrite throw_last_error_run. reflexivity.
Qed.

Lemma refused_open_throws_witness :
  exists api,
    sftp_io_device msvc refusing_server "/tmp/f" 2 fresh_world =
      (Throw (ssh_error (last_errno refusing_server) api None),
       log (libssh2_sftp_open_ex "/tmp/f" 26 mode_0644 LIBSSH2_SFTP_OPENFILE)
         fresh_world).
Proof.
  apply (refused_open_throws msvc refusing_server "/tmp/f" 2 fresh_world 26);
    reflexivity.
Defined.

(** ** More on seek *)

Lemma seek_beg_run (srv : sftp_server) (h : handle) (path : string) (p : Z)
    (w : world) :
  0 <= p ->
  seek srv h path p ios_beg w =
    (Return p, set_offset h p (log (libssh2_sftp_seek64 h p) w)).
Proof.
  intros Hp. unfold seek, bind, ret, throw, sftp.seek64.
  destruct (Z.ltb_spec p 0); [lia | reflexivity].
Qed.

Lemma seek_cur_run (srv : sftp_server) (h : handle) (path : string) (d : Z)
    (w : world) :
  0 <= offset w h + d < 2 ^ 63 ->
  seek srv h path d ios_cur w =
    (Return (offset w h + d),
     set_offset h (offset w h + d)
       (log (libssh2_sftp_seek64 h (offset w h + d))
          (log (libssh2_sftp_tell64 h) w))).
Proof.
  intros Hd. unfold seek, bind, ret, throw, sftp.seek64, sftp.tell64.
  rewrite to_stream_offset_id by (unfold is_stream_offset; lia).
  destruct (Z.ltb_spec (offset w h + d) 0); [lia | reflexivity].
Qed.

(** X5.  A seek to [p] from the start followed by a seek of [d] from the
    current position returns [p + d] and leaves every handle where a single
    seek to [p + d] from the start leaves it, as long as both positions are
    non-negative stream offsets. *)
Theorem seek_from_start_then_relative (srv : sftp_server) (h : handle)
    (path : string) (p d : Z) (w : world) :
  0 <= p ->
  0 <= p + d < 2 ^ 63 ->
  fst (seek srv h path d ios_cur (snd (seek srv h path p ios_beg w))) =
    Return (p + d) /\
  fst (seek srv h path (p + d) ios_beg w) = Return (p + d) /\
  forall h',
    offset (snd (seek srv h path d ios_cur
                   (snd (seek srv h path p ios_beg w)))) h' =
    offset (snd (seek srv h path (p + d) ios_beg w)) h'.
Proof.
  intros Hp Hpd.
  rewrite (seek_beg_run srv h path p w Hp).
  rewrite (seek_beg_run srv h path (p + d) w) by lia.
  cbn [snd].
  assert (Hoff :
    offset (set_offset h p (log (libssh2_sftp_seek64 h p) w)) h = p).
  { cbn. rewrite Nat.eqb_refl. reflexivity. }
  rewrite seek_cur_run by (rewrite Hoff; exact Hpd).
  rewrite Hoff. cbn [fst snd]. repeat split.
  intros h'. cbn. destruct (Nat.eqb h' h); reflexivity.
Qed.

Lemma seek_from_start_then_relative_witness :
  fst (seek short_server 7%nat "/tmp/f" (-4) ios_cur
         (snd (seek short_server 7%nat "/tmp/f" 9 ios_beg fresh_world))) =
    Return (9 + -4) /\
  fst (seek short_server 7%nat "/tmp/f" (9 + -4) ios_beg fresh_world) =
    Return (9 + -4) /\
  forall h',
    offset (snd (seek short_server 7%nat "/tmp/f" (-4) ios_cur
                   (snd (seek short_server 7%nat "/tmp/f" 9 ios_beg
                           fresh_world)))) h' =
    offset (snd (seek short_server 7%nat "/tmp/f" (9 + -4) ios_beg
                   fresh_world)) h'.
Proof.
  apply (seek_from_start_then_relative short_server 7%nat "/tmp/f" 9 (-4)
           fresh_world); lia.
Defined.

(** X6.  A seek that throws, whatever the reason, has not moved any
    handle and has not asked libssh2 to seek: the calls made are the
    queries alone, and the count of transfers is as it was. *)
Theorem failed_seek_moves_nothing (srv : sftp_server) (h : handle)
    (path : string) (off : Z) (way : seekdir) (w : world) (e : exn) :
  fst (seek srv h path off way w) = Throw e ->
  offset (snd (seek srv h path off way w)) = offset w /\
  calls (snd (seek srv h path off way w)) =
    (calls w ++ seek_queries h way)%list /\
  transfers (snd (seek srv h path off way w)) = transfers w.
Proof.
  unfold seek, bind, ret, throw, throw_last_error_with_path, rethrowing,
    sftp.seek64, sftp.tell64, sftp.fstat_ex.
  destruct way as [| | | v]; cbn.
  - destruct (off <? 0); cbn; [| discriminate].
    intros _. rewrite app_nil_r. repeat split.
  - destruct (to_stream_offset (offset w h + off) <? 0); cbn; [| discriminate].
    intros _. repeat split.
  - destruct (fstat_ex_answer srv h) as [rc filesize].
    destruct (rc =? 0); cbn.
    + destruct (to_stream_offset (filesize + off) <? 0); cbn; [| discriminate].
      intros _. repeat split.
    + rewrite throw_last_error_run. cbn. intros _. repeat split.
  - intros _. rewrite app_nil_r. repeat split.
Qed.

(** A seek to before the start of a file of 100 bytes. *)
Lemma failed_seek_moves_nothing_witness :
  offset (snd (seek short_server 7%nat "/tmp/f" (-101) ios_end fresh_world)) =
    offset fresh_world /\
  calls (snd (seek short_server 7%nat "/tmp/f" (-101) ios_end fresh_world)) =
    (calls fresh_world ++ seek_queries 7%nat ios_end)%list /\
  transfers (snd (seek short_server 7%nat "/tmp/f" (-101) ios_end
                    fresh_world)) = transfers fresh_world.
Proof.
  apply (failed_seek_moves_nothing short_server 7%nat "/tmp/f" (-101) ios_end
           fresh_world (logic_error "Cannot seek before start of file")).
  reflexivity.
Defined.

(** X7.  When the fstat of a seek from the end fails, seek throws an
    [ssh_error] with the session's last error code and the path of the
    file, whether or not the error is an SFTP one, having asked libssh2 for
    nothing but the fstat: no seek is issued.  (What is thrown is the work
    of the overload of [throw_last_error] that takes the path, which is
    modelled from the specification.) *)
Theorem seek_from_end_fstat_fails (srv : sftp_server) (h : handle)
    (path : string) (off : Z) (w : world) :
  fst (fstat_ex_answer srv h) <> 0 ->
  exists api,
    seek srv h path off ios_end w =
      (Throw (ssh_error (last_errno srv) api (Some path)),
       logs [libssh2_sftp_fstat_ex h] w).
Proof.
  intros Hrc. exists (sftp_detail srv "libssh2_sftp_fstat_ex").
  unfold seek, bind, sftp.fstat_ex, throw_last_error_with_path, rethrowing.
  destruct (fstat_ex_answer srv h) as [rc filesize]; cbn in *.
  destruct (Z.eqb_spec rc 0); [contradiction |]. cbn.
  rewrite throw_last_error_run. reflexivity.
Qed.

(** The same at a server whose fstat fails. *)
Lemma seek_from_end_fstat_fails_witness :
  exists api,
    seek refusing_server 7%nat "/tmp/f" 0 ios_end fresh_world =
      (Throw (ssh_error (last_errno refusing_server) api (Some "/tmp/f")),
       logs [libssh2_sftp_fstat_ex 7%nat] fresh_world).
Proof.
  apply (seek_from_end_fstat_fails refusing_server 7%nat "/tmp/f" 0
           fresh_world).
  cbn. lia.
Defined.

(** ** More on the transfer loops *)

Lemma sftp_read_offset (srv : sftp_server) (h : handle) (c len a : Z)
    (w w1 : world) :
  sftp.read srv h c len w = (Return a, w1) ->
  0 <= a /\
  offset w1 h = offset w h + a /\
  forall h', h' <> h -> offset w1 h' = offset w h'.
Proof.
  unfold sftp.read, sftp.read_call, bind, ret.
  set (r := read_answer srv (transfers w) len).
  destruct (Z.ltb_spec r 0) as [Hneg | Hpos];
    [rewrite throw_last_error_run; discriminate |].
  intros E. injection E as <- <-.
  destruct (Z.ltb_spec 0 r) as [Hsome | Hzero]; cbn.
  - rewrite Nat.eqb_refl. split; [lia |]. split; [reflexivity |].
    intros h' Hne. apply Nat.eqb_neq in Hne. rewrite Hne. reflexivity.
  - split; [lia |]. split; [lia |]. reflexivity.
Qed.

Lemma sftp_write_offset (srv : sftp_server) (h : handle) (c len a : Z)
    (w w1 : world) :
  sftp.write srv h c len w = (Return a, w1) ->
  0 <= a /\
  offset w1 h = offset w h + a /\
  forall h', h' <> h -> offset w1 h' = offset w h'.
Proof.
  unfold sftp.write, sftp.write_call, bind, ret.
  set (r := write_answer srv (transfers w) len).
  destruct (Z.ltb_spec r 0) as [Hneg | Hpos];
    [rewrite throw_last_error_run; discriminate |].
  intros E. injection E as <- <-.
  destruct (Z.ltb_spec 0 r) as [Hsome | Hzero]; cbn.
  - rewrite Nat.eqb_refl. split; [lia |]. split; [reflexivity |].
    intros h' Hne. apply Nat.eqb_neq in Hne. rewrite Hne. reflexivity.
  - split; [lia |]. split; [lia |]. reflexivity.
Qed.

Lemma read_loop_offset (srv : sftp_server) (h : handle) (B : Z) (fuel : nat) :
  forall (count total : Z) (w w' : world),
    read_loop srv fuel h B count w = (Return (Some total), w') ->
    count <= total /\
    offset w' h = offset w h + (total - count) /\
    forall h', h' <> h -> offset w' h' = offset w h'.
Proof.
  induction fuel as [| fuel IH]; intros count total w w'; [discriminate |].
  cbn [read_loop]. unfold bind at 1.
  destruct (sftp.read srv h count (B - count) w) as [[a | e] w1] eqn:E;
    [| discriminate].
  destruct (sftp_read_offset srv h _ _ _ _ _ E) as (Ha & Hh & Hother).
  destruct (Z.eqb_spec a 0) as [-> | Hne].
  - intros R. injection R as <- <-. repeat split; [lia | lia | exact Hother].
  - destruct (count + a <? B).
    + intros R. destruct (IH _ _ _ _ R) as (Hle & Hh' & Hother').
      repeat split; [lia | lia |].
      intros h' Hh'ne. rewrite Hother', Hother by assumption. reflexivity.
    + intros R. injection R as <- <-.
      repeat split; [lia | lia | exact Hother].
Qed.

Lemma write_loop_offset (srv : sftp_server) (h : handle) (N : Z)
    (fuel : nat) :
  forall (count total : Z) (w w' : world),
    write_loop srv fuel h N count w = (Return (Some total), w') ->
    count <= total /\
    offset w' h = offset w h + (total - count) /\
    forall h', h' <> h -> offset w' h' = offset w h'.
Proof.
  induction fuel as [| fuel IH]; intros count total w w'; [discriminate |].
  cbn [write_loop]. unfold bind at 1.
  destruct (sftp.write srv h count (N - count) w) as [[a | e] w1] eqn:E;
    [| discriminate].
  destruct (sftp_write_offset srv h _ _ _ _ _ E) as (Ha & Hh & Hother).
  destruct (count + a <? N).
  - intros R. destruct (IH _ _ _ _ R) as (Hle & Hh' & Hother').
    repeat split; [lia | lia |].
    intros h' Hh'ne. rewrite Hother', Hother by assumption. reflexivity.
  - intros R. injection R as <- <-.
    repeat split; [lia | lia | exact Hother].
Qed.

(** X8.  Whatever the server answers, a read that returns [total] has
    moved the offset that libssh2 keeps in the handle forward by [total],
    which is not negative, and has left the other handles alone. *)
Theorem read_moves_the_handle_by_its_total (srv : sftp_server) (h : handle)
    (path : string) (B : Z) (fuel : nat) (w : world) (total : Z) :
  fst (read srv fuel h path B w) = Return (Some total) ->
  0 <= total /\
  offset (snd (read srv fuel h path B w)) h = offset w h + total /\
  forall h', h' <> h -> offset (snd (read srv fuel h path B w)) h' = offset w h'.
Proof.
  unfold read, rethrowing.
  destruct (read_loop srv fuel h B 0 w) as [[[t |] | e] w'] eqn:E; cbn;
    try discriminate.
  intros R. injection R as <-.
  destruct (read_loop_offset srv h B fuel _ _ _ _ E) as (Hle & Hh & Hother).
  repeat split; [lia | lia | exact Hother].
Qed.

Lemma read_moves_the_handle_by_its_total_witness :
  0 <= 10 /\
  offset (snd (read short_server 11 7%nat "/tmp/f" 10 fresh_world)) 7%nat =
    offset fresh_world 7%nat + 10 /\
  forall h', h' <> 7%nat ->
    offset (snd (read short_server 11 7%nat "/tmp/f" 10 fresh_world)) h' =
    offset fresh_world h'.
Proof.
  apply (read_moves_the_handle_by_its_total short_server 7%nat "/tmp/f" 10 11
           fresh_world 10).
  reflexivity.
Defined.

(** X9.  Whatever the server answers, a write that returns has returned
    the size of the data and has moved the offset that libssh2 keeps in the
    handle forward by that size, leaving the other handles alone. *)
Theorem write_returns_the_size_and_moves_the_handle (srv : sftp_server)
    (h : handle) (path : string) (N : Z) (fuel : nat) (w : world)
    (count : Z) :
  fst (write srv fuel h path N w) = Return (Some count) ->
  count = N /\
  0 <= N /\
  offset (snd (write srv fuel h path N w)) h = offset w h + N /\
  forall h', h' <> h ->
    offset (snd (write srv fuel h path N w)) h' = offset w h'.
Proof.
  unfold write, rethrowing, bind.
  destruct (write_loop srv fuel h N 0 w) as [[[t |] | e] w'] eqn:E; cbn;
    try discriminate.
  destruct (Z.eqb_spec t N) as [-> | Hne]; cbn; [| discriminate].
  intros R. injection R as <-.
  destruct (write_loop_offset srv h N fuel _ _ _ _ E) as (Hle & Hh & Hother).
  repeat split; [lia | lia | exact Hother].
Qed.

Lemma write_returns_the_size_and_moves_the_handle_witness :
  10 = 10 /\
  0 <= 10 /\
  offset (snd (write short_server 11 7%nat "/tmp/f" 10 fresh_world)) 7%nat =
    offset fresh_world 7%nat + 10 /\
  forall h', h' <> 7%nat ->
    offset (snd (write short_server 11 7%nat "/tmp/f" 10 fresh_world)) h' =
    offset fresh_world h'.
Proof.
  apply (write_returns_the_size_and_moves_the_handle short_server 7%nat
           "/tmp/f" 10 11 fresh_world 10).
  reflexivity.
Defined.

Lemma read_loop_throws (srv : sftp_server) (h : handle) (B : Z) (fuel : nat) :
  forall (count : Z) (w w' : world) (e : exn),
    read_loop srv fuel h B count w = (Throw e, w') ->
    e = ssh_error (last_errno srv) (sftp_detail srv "libssh2_sftp_read") None.
Proof.
  induction fuel as [| fuel IH]; intros count w w' e; [discriminate |].
  cbn [read_loop]. unfold bind at 1.
  destruct (sftp_read_run srv h count (B - count) w) as (w1 & _ & _ & ->).
  destruct (read_answer srv (transfers w) (B - count) <? 0).
  - intros R. injection R as <- _. reflexivity.
  - destruct (read_answer srv (transfers w) (B - count) =? 0);
      [discriminate |].
    destruct (count + read_answer srv (transfers w) (B - count) <? B);
      [apply IH | discriminate].
Qed.

Lemma write_loop_throws (srv : sftp_server) (h : handle) (N : Z)
    (fuel : nat) :
  forall (count : Z) (w w' : world) (e : exn),
    write_loop srv fuel h N count w = (Throw e, w') ->
    e = ssh_error (last_errno srv) (sftp_detail srv "libssh2_sftp_write")
          None.
Proof.
  induction fuel as [| fuel IH]; intros count w w' e; [discriminate |].
  cbn [write_loop]. unfold bind at 1.
  destruct (sftp_write_run srv h count (N - count) w) as (w1 & _ & _ & ->).
  destruct (write_answer srv (transfers w) (N - count) <? 0).
  - intros R. injection R as <- _. reflexivity.
  - destruct (count + write_answer srv (transfers w) (N - count) <? N);
      [apply IH | discriminate].
Qed.

(** X10.  Whatever the server answers, an exception that leaves a read
    is an [ssh_error] with the session's last error code and the path of
    the file attached; one that leaves a write is such an error or the
    failed assertion on the count. *)
Theorem transfer_errors_name_the_file (srv : sftp_server) (h : handle)
    (path : string) (size : Z) (fuel : nat) (w : world) :
  match fst (read srv fuel h path size w) with
  | Throw e => exists api, e = ssh_error (last_errno srv) api (Some path)
  | Return _ => True
  end /\
  match fst (write srv fuel h path size w) with
  | Throw e =>
      (exists api, e = ssh_error (last_errno srv) api (Some path)) \/
      e = assertion_failed "count == data_size"
  | Return _ => True
  end.
Proof.
  split.
  - unfold read, rethrowing.
    destruct (read_loop srv fuel h size 0 w) as [[r | e0] w'] eqn:E; cbn;
      [exact I |].
    rewrite (read_loop_throws srv h size fuel _ _ _ _ E).
    eexists. reflexivity.
  - unfold write, rethrowing, bind.
    destruct (write_loop srv fuel h size 0 w) as [[[t |] | e0] w'] eqn:E; cbn.
    + destruct (t =? size); cbn; [exact I | now right].
    + exact I.
    + rewrite (write_loop_throws srv h size fuel _ _ _ _ E).
      left. eexists. reflexivity.
Qed.

(** Against a server that fails every transfer with an SFTP protocol
    error, the first call of a read is the last, and the error is the
    [sftp_error] with the SFTP code, the function and the file. *)
Example read_fails_at_once :
  read refusing_server 11 7%nat "/tmp/f" 10 fresh_world =
    (Throw (ssh_error (-31) (Some (4, "libssh2_sftp_read")) (Some "/tmp/f")),
     next_transfer (log (libssh2_sftp_read 7%nat 0 10) fresh_world)).
Proof. reflexivity. Qed.

(** ** The life of a session guard *)

Lemma session_state_unconnected_run (lib : session.library)
    (w : session.world) :
  session.session_state_unconnected lib w =
  match session.init_ex_answer lib with
  | None =>
      (Throw bad_alloc,
       {| session.calls :=
            session.calls w ++ [session.libssh2_session_init_ex];
          session.allocated := session.allocated w |})
  | Some s =>
      (Return {| session.m_session := s;
                 session.m_disconnection_message := None |},
       {| session.calls :=
            session.calls w ++ [session.libssh2_session_init_ex];
          session.allocated := s :: session.allocated w |})
  end.
Proof.
  unfold session.session_state_unconnected, bind, session.init, session.log,
    ret.
  destruct (session.init_ex_answer lib); reflexivity.
Qed.

Lemma destroy_run (lib : session.library) (st : session.session_state)
    (w : session.world) :
  session.destroy lib st w =
    (Return tt,
     {| session.calls :=
          session.calls w ++
            match session.m_disconnection_message st with
            | Some message =>
                [session.libssh2_session_disconnect (session.m_session st)
                   message]
            | None => []
            end ++
            [session.libssh2_session_free (session.m_session st)];
        session.allocated :=
          session.remove_one (session.m_session st) (session.allocated w) |}).
Proof.
  unfold session.destroy, bind, session.disconnect, session.session_free,
    session.log, ret.
  destruct (session.m_disconnection_message st) as [message |]; cbn.
  - destruct (negb (session.disconnect_answer lib (session.m_session st)
                      message =? 0)); cbn;
      rewrite <- app_assoc; reflexivity.
  - reflexivity.
Qed.

(** X11.  A guard built over a socket whose handshake succeeds and then
    destroyed has made four calls in this order: the allocation, the
    handshake, the disconnection with the message given to the
    constructor, the free.  It has returned whether or not the
    disconnection succeeded, and the sessions allocated are those
    allocated before. *)
Theorem connected_guard_life_cycle (lib : session.library) (socket : Z)
    (message : string) (w : session.world) (s : handle) :
  session.init_ex_answer lib = Some s ->
  session.startup_answer lib s socket = 0 ->
  bind (session.session_state_connected lib socket message)
    (session.destroy lib) w =
  (Return tt,
   {| session.calls :=
        session.calls w ++
          [session.libssh2_session_init_ex;
           session.libssh2_session_startup s socket;
           session.libssh2_session_disconnect s message;
           session.libssh2_session_free s];
      session.allocated := session.allocated w |}).
Proof.
  intros Hinit Hrc. unfold bind.
  rewrite session_state_connected_run, Hinit, Hrc. cbn.
  rewrite destroy_run. cbn. rewrite Nat.eqb_refl, <- app_assoc. reflexivity.
Qed.

Lemma connected_guard_life_cycle_witness :
  bind (session.session_state_connected working_library 5 "bye")
    (session.destroy working_library) no_session =
  (Return tt,
   {| session.calls :=
        session.calls no_session ++
          [session.libssh2_session_init_ex;
           session.libssh2_session_startup 3%nat 5;
           session.libssh2_session_disconnect 3%nat "bye";
           session.libssh2_session_free 3%nat];
      session.allocated := session.allocated no_session |}).
Proof.
  apply (connected_guard_life_cycle working_library 5 "bye" no_session 3%nat);
    reflexivity.
Defined.

(** X12.  A guard built without a socket and then destroyed has
    allocated its session and freed it, and nothing else: it never asks for
    a handshake or for a disconnection.  The sessions allocated are those
    allocated before. *)
Theorem unconnected_guard_life_cycle (lib : session.library)
    (w : session.world) (s : handle) :
  session.init_ex_answer lib = Some s ->
  bind (session.session_state_unconnected lib) (session.destroy lib) w =
  (Return tt,
   {| session.calls :=
        session.calls w ++
          [session.libssh2_session_init_ex; session.libssh2_session_free s];
      session.allocated := session.allocated w |}).
Proof.
  intros Hinit. unfold bind.
  rewrite session_state_unconnected_run, Hinit, destroy_run. cbn.
  rewrite Nat.eqb_refl, <- app_assoc. reflexivity.
Qed.

Lemma unconnected_guard_life_cycle_witness :
  bind (session.session_state_unconnected working_library)
    (session.destroy working_library) no_session =
  (Return tt,
   {| session.calls :=
        session.calls no_session ++
          [session.libssh2_session_init_ex;
           session.libssh2_session_free 3%nat];
      session.allocated := session.allocated no_session |}).
Proof.
  apply (unconnected_guard_life_cycle working_library no_session 3%nat).
  reflexivity.
Defined.

(** X13.  When libssh2 cannot allocate a session, both constructors throw
    [std::bad_alloc] after the one call that tried: there is no handshake
    and nothing to free. *)
Theorem failed_allocation_throws_bad_alloc (lib : session.library)
    (socket : Z) (message : string) (w : session.world) :
  session.init_ex_answer lib = None ->
  session.session_state_unconnected lib w =
    (Throw bad_alloc,
     {| session.calls := session.calls w ++ [session.libssh2_session_init_ex];
        session.allocated := session.allocated w |}) /\
  session.session_state_connected lib socket message w =
    (Throw bad_alloc,
     {| session.calls := session.calls w ++ [session.libssh2_session_init_ex];
        session.allocated := session.allocated w |}).
Proof.
  intros Hinit.
  rewrite session_state_unconnected_run, session_state_connected_run, Hinit.
  split; reflexivity.
Qed.

Lemma failed_allocation_throws_bad_alloc_witness :
  session.session_state_unconnected exhausted_library no_session =
    (Throw bad_alloc,
     {| session.calls :=
          session.calls no_session ++ [session.libssh2_session_init_ex];
        session.allocated := session.allocated no_session |}) /\
  session.session_state_connected exhausted_library 5 "bye" no_session =
    (Throw bad_alloc,
     {| session.calls :=
          session.calls no_session ++ [session.libssh2_session_init_ex];
        session.allocated := session.allocated no_session |}).
Proof.
  apply (failed_allocation_throws_bad_alloc exhausted_library 5 "bye"
           no_session).
  reflexivity.
Defined.

(** X14.  Moving a guard leaves the guard moved from with the session
    pointer and with its message still engaged, so that destroying the
    two guards frees the same session twice, and disconnects it twice when
    the handshake had succeeded. *)
Theorem moved_from_guard_frees_again (lib : session.library)
    (residue : string -> string) (st : session.session_state)
    (w : session.world) :
  let (new, old) := session_state_move residue st in
  fst (bind (session.destroy lib new) (fun _ => session.destroy lib old) w) =
    Return tt /\
  session.calls
    (snd (bind (session.destroy lib new) (fun _ => session.destroy lib old) w))
  = (session.calls w ++
       match session.m_disconnection_message st with
       | Some message =>
           [session.libssh2_session_disconnect (session.m_session st) message;
            session.libssh2_session_free (session.m_session st);
            session.libssh2_session_disconnect (session.m_session st)
              (residue message);
            session.libssh2_session_free (session.m_session st)]
       | None =>
           [session.libssh2_session_free (session.m_session st);
            session.libssh2_session_free (session.m_session st)]
       end)%list.
Proof.
  unfold session_state_move, bind. rewrite !destroy_run. cbn.
  destruct (session.m_disconnection_message st) as [message |]; cbn;
    rewrite <- !app_assoc; split; reflexivity.
Qed.

(** ** Known hosts: the key and its comment *)

Lemma substring_all (s : string) : substring 0 (String.length s) s = s.
Proof.
  induction s as [| x r IH]; [reflexivity |].
  cbn. rewrite IH. reflexivity.
Qed.

Lemma find_first_split (c : ascii) (k : string) :
  forall i,
    knownhost.find_first c k = Some i ->
    k = substring 0 i k ++ String c (substring (S i) (String.length k - S i) k)
    /\ knownhost.find_first c (substring 0 i k) = None
    /\ (i < String.length k)%nat.
Proof.
  induction k as [| x r IH]; intros i; [discriminate |].
  cbn [knownhost.find_first].
  destruct (Ascii.eqb_spec x c) as [-> | Hne].
  - intros E. injection E as <-. cbn.
    rewrite Nat.sub_0_r, substring_all.
    repeat split. lia.
  - destruct (knownhost.find_first c r) as [j |] eqn:Ej; [| discriminate].
    intros E. injection E as <-.
    destruct (IH j eq_refl) as (Hsplit & Hnone & Hlt).
    cbn [substring String.length append Nat.sub knownhost.find_first].
    rewrite Hnone. apply Ascii.eqb_neq in Hne. rewrite Hne.
    split; [| split; [reflexivity | lia]].
    f_equal. exact Hsplit.
Qed.

(** X15.  For a key string shorter than [npos]: when it has a space,
    [key()] is what stands before the first space, has no space itself,
    and [comment()] is all that stands after that space, so that the two
    joined by a space give the string back; when it has no space, [key()]
    is the whole string and [comment()] is empty. *)
Theorem key_and_comment_split_at_first_space (npos : Z)
    (mem : knownhost.memory) (pos : knownhost.pointer) :
  Z.of_nat (String.length (knownhost.internal_key mem pos)) < npos ->
  match knownhost.find_first " "%char (knownhost.internal_key mem pos) with
  | Some i =>
      knownhost.internal_key mem pos =
        knownhost.knownhost_key npos mem pos
        ++ String " "%char (knownhost.knownhost_comment npos mem pos) /\
      knownhost.find_first " "%char (knownhost.knownhost_key npos mem pos) =
        None /\
      String.length (knownhost.knownhost_key npos mem pos) = i
  | None =>
      knownhost.knownhost_key npos mem pos = knownhost.internal_key mem pos /\
      knownhost.knownhost_comment npos mem pos = ""
  end.
Proof.
  intros Hlen.
  unfold knownhost.knownhost_key, knownhost.knownhost_comment,
    knownhost.string_find.
  set (k := knownhost.internal_key mem pos) in *.
  destruct (knownhost.find_first " "%char k) as [i |] eqn:Ei.
  - destruct (find_first_split _ _ _ Ei) as (Hsplit & Hnone & Hlt).
    assert (Hadd : knownhost.size_add npos (Z.of_nat i) 1 = Z.of_nat (S i)).
    { unfold knownhost.size_add. rewrite Z.mod_small by lia. lia. }
    rewrite Hadd.
    destruct (Z.eqb_spec (Z.of_nat i) npos) as [E | _]; [lia |].
    destruct (Z.eqb_spec (Z.of_nat (S i)) npos) as [E | _]; [lia |].
    cbn [negb andb].
    unfold knownhost.substr, knownhost.substr_from.
    rewrite !Nat2Z.id. change (Z.to_nat 0) with 0%nat.
    split; [exact Hsplit |]. split; [exact Hnone |].
    clear - Hlt. revert i Hlt.
    induction k as [| x r IH]; intros i Hlt; cbn in *; [lia |].
    destruct i as [| i]; [reflexivity |].
    cbn. f_equal. apply IH. lia.
  - rewrite Z.eqb_refl. cbn [negb andb]. split; reflexivity.
Qed.

(** The entry of [one_entry_memory], with 64-bit sizes. *)
Lemma key_and_comment_split_at_first_space_witness :
  match
    knownhost.find_first " "%char
      (knownhost.internal_key one_entry_memory (Some 1%nat))
  with
  | Some i =>
      knownhost.internal_key one_entry_memory (Some 1%nat) =
        knownhost.knownhost_key (2 ^ 64 - 1) one_entry_memory (Some 1%nat)
        ++ String " "%char
             (knownhost.knownhost_comment (2 ^ 64 - 1) one_entry_memory
                (Some 1%nat)) /\
      knownhost.find_first " "%char
        (knownhost.knownhost_key (2 ^ 64 - 1) one_entry_memory (Some 1%nat)) =
        None /\
      String.length
        (knownhost.knownhost_key (2 ^ 64 - 1) one_entry_memory (Some 1%nat)) =
        i
  | None =>
      knownhost.knownhost_key (2 ^ 64 - 1) one_entry_memory (Some 1%nat) =
        knownhost.internal_key one_entry_memory (Some 1%nat) /\
      knownhost.knownhost_comment (2 ^ 64 - 1) one_entry_memory (Some 1%nat) =
        ""
  end.
Proof.
  apply (key_and_comment_split_at_first_space (2 ^ 64 - 1) one_entry_memory
           (Some 1%nat)).
  reflexivity.
Defined.

(** What the two give on that entry. *)
Example key_and_comment_of_an_entry :
  knownhost.knownhost_key (2 ^ 64 - 1) one_entry_memory (Some 1%nat) =
    "AAAAB3NzaC1yc2E=" /\
  knownhost.knownhost_comment (2 ^ 64 - 1) one_entry_memory (Some 1%nat) =
    "user@example.com".
Proof. split; reflexivity. Qed.

(** ** Known hosts: adding and finding *)

Lemma key_mask_cases (mask : Z) :
  knownhost.key_mask_ok mask = true ->
  mask = Z.shiftl 3 18 \/ mask = Z.shiftl 7 18 \/ mask = Z.shiftl 15 18.
Proof.
  unfold knownhost.key_mask_ok. cbn [existsb].
  rewrite !orb_true_iff, !Z.eqb_eq. intuition discriminate.
Qed.

Ltac decode_type :=
  intros mem a HT;
  unfold knownhost.key_algo, knownhost.is_name_plain, knownhost.is_name_sha1,
    knownhost.is_name_custom;
  rewrite HT; repeat split; reflexivity.

Lemma added_type_decodes (mask : Z) (name_type : Z)
    (algorithm : knownhost.hostkey_type) (t : Z) (base64_key : bool) :
  knownhost.key_mask_ok mask = true ->
  In name_type [1; 2; 3] ->
  knownhost.hostkey_type_to_add_type algorithm = Return t ->
  decodes_to mask
    (if base64_key
     then Z.lor (Z.lor name_type t) knownhost.LIBSSH2_KNOWNHOST_KEYENC_BASE64
     else Z.lor (Z.lor name_type t) knownhost.LIBSSH2_KNOWNHOST_KEYENC_RAW)
    algorithm (name_type =? 1) (name_type =? 2) (name_type =? 3).
Proof.
  intros Hmask Hname Ht.
  destruct (key_mask_cases mask Hmask) as [-> | [-> | ->]];
    destruct Hname as [<- | [<- | [<- | []]]];
    destruct algorithm; cbn in Ht; try discriminate; injection Ht as <-;
    destruct base64_key; decode_type.
Qed.

(** X16.  The type mask that [add], [add_hashed] and [add_custom] hand
    to libssh2, in their one call, decodes back: [key_algo] of an entry
    with that mask names the algorithm given, and of [is_name_plain],
    [is_name_sha1] and [is_name_custom] the one of the function used holds
    and the other two do not; the salt is passed by [add_hashed] alone, and
    not when it is empty.  For the unknown algorithm the three throw
    [std::invalid_argument] without calling libssh2. *)
Theorem added_entries_decode (mask : Z) (lib : knownhost.library)
    (host salt key : string) (algorithm : knownhost.hostkey_type)
    (base64_key : bool) (w : knownhost.world) :
  knownhost.key_mask_ok mask = true ->
  match algorithm with
  | knownhost.unknown =>
      knownhost.add lib host key algorithm base64_key w =
        (Throw (invalid_argument "Unrecognised key algorithm"), w) /\
      knownhost.add_hashed lib host salt key algorithm base64_key w =
        (Throw (invalid_argument "Unrecognised key algorithm"), w) /\
      knownhost.add_custom lib host key algorithm base64_key w =
        (Throw (invalid_argument "Unrecognised key algorithm"), w)
  | _ =>
      exists plain hashed custom,
        snd (knownhost.add lib host key algorithm base64_key w) =
          (w ++ [knownhost.libssh2_knownhost_add host None key plain])%list /\
        decodes_to mask plain algorithm true false false /\
        snd (knownhost.add_hashed lib host salt key algorithm base64_key w) =
          (w ++ [knownhost.libssh2_knownhost_add host
                   (if String.eqb salt "" then None else Some salt)
                   key hashed])%list /\
        decodes_to mask hashed algorithm false true false /\
        snd (knownhost.add_custom lib host key algorithm base64_key w) =
          (w ++ [knownhost.libssh2_knownhost_add host None key custom])%list /\
        decodes_to mask custom algorithm false false true
  end.
Proof.
  intros Hmask.
  assert (Hrun :
    forall name_type s t,
      knownhost.hostkey_type_to_add_type algorithm = Return t ->
      snd (bind (lift (knownhost.hostkey_type_to_add_type algorithm))
             (fun t =>
                bind (knownhost.detail_add lib host s key (Z.lor name_type t)
                        base64_key)
                  (fun p => ret {| knownhost.m_pos := p |})) w) =
      (w ++ [knownhost.libssh2_knownhost_add host
               (if String.eqb s "" then None else Some s) key
               (if base64_key
                then Z.lor (Z.lor name_type t)
                       knownhost.LIBSSH2_KNOWNHOST_KEYENC_BASE64
                else Z.lor (Z.lor name_type t)
                       knownhost.LIBSSH2_KNOWNHOST_KEYENC_RAW)])%list).
  { intros name_type s t Ht. unfold bind, lift, ret. rewrite Ht.
    unfold knownhost.detail_add, knownhost.add_call.
    destruct base64_key;
      match goal with
      | |- context [knownhost.add_answer ?l ?w ?h ?s ?k ?t] =>
          destruct (knownhost.add_answer l w h s k t)
      end; reflexivity. }
  pose proof (added_type_decodes mask 1 algorithm) as Hplain.
  pose proof (added_type_decodes mask 2 algorithm) as Hhashed.
  pose proof (added_type_decodes mask 3 algorithm) as Hcustom.
  destruct algorithm; try (repeat split; reflexivity);
    do 3 eexists;
    (split; [exact (Hrun 1 "" _ eq_refl) |]);
    (split; [exact (Hplain _ base64_key Hmask ltac:(cbn; tauto) eq_refl) |]);
    (split; [exact (Hrun 2 salt _ eq_refl) |]);
    (split; [exact (Hhashed _ base64_key Hmask ltac:(cbn; tauto) eq_refl) |]);
    (split; [exact (Hrun 3 "" _ eq_refl) |]);
    exact (Hcustom _ base64_key Hmask ltac:(cbn; tauto) eq_refl).
Qed.

(** An ssh-rsa key in base64, with the key mask of libssh2 1.5. *)
Lemma added_entries_decode_witness :
  exists plain hashed custom,
    snd (knownhost.add one_entry_library "example.com" "AAAA"
           knownhost.ssh_rsa true []) =
      ([] ++ [knownhost.libssh2_knownhost_add "example.com" None "AAAA"
                plain])%list /\
    decodes_to (Z.shiftl 7 18) plain knownhost.ssh_rsa true false false /\
    snd (knownhost.add_hashed one_entry_library "example.com" "c2FsdA=="
           "AAAA" knownhost.ssh_rsa true []) =
      ([] ++ [knownhost.libssh2_knownhost_add "example.com"
                (if String.eqb "c2FsdA==" "" then None else Some "c2FsdA==")
                "AAAA" hashed])%list /\
    decodes_to (Z.shiftl 7 18) hashed knownhost.ssh_rsa false true false /\
    snd (knownhost.add_custom one_entry_library "example.com" "AAAA"
           knownhost.ssh_rsa true []) =
      ([] ++ [knownhost.libssh2_knownhost_add "example.com" None "AAAA"
                custom])%list /\
    decodes_to (Z.shiftl 7 18) custom knownhost.ssh_rsa false false true.
Proof.
  apply (added_entries_decode (Z.shiftl 7 18) one_entry_library "example.com"
           "c2FsdA==" "AAAA" knownhost.ssh_rsa true []).
  reflexivity.
Defined.

(** X17.  A search result answers exactly one of [match()],
    [mismatch()] and [not_found()].  A result that [find] returns answers
    [match()] exactly when libssh2 answered MATCH, [mismatch()] exactly
    when it answered MISMATCH with an entry, and [not_found()] when it
    answered NOTFOUND or MISMATCH without an entry; [find] has made one
    call, a check for a plain host name. *)
Theorem find_answers_one_of_three (lib : knownhost.library)
    (host key : string) (base64_key : bool) (w : knownhost.world) :
  (forall r : knownhost.knownhost_search_result,
     In (knownhost.match_ r, knownhost.mismatch r, knownhost.not_found r)
       [(true, false, false); (false, true, false); (false, false, true)]) /\
  exists type,
    type = Z.lor knownhost.LIBSSH2_KNOWNHOST_TYPE_PLAIN
             (if base64_key then knownhost.LIBSSH2_KNOWNHOST_KEYENC_BASE64
              else knownhost.LIBSSH2_KNOWNHOST_KEYENC_RAW) /\
    snd (knownhost.find lib host key base64_key w) =
      (w ++ [knownhost.libssh2_knownhost_check host key type])%list /\
    match fst (knownhost.find lib host key base64_key w) with
    | Return r =>
        exists rc found,
          knownhost.check_answer lib w host key type = Return (rc, found) /\
          knownhost.match_ r =
            (rc =? knownhost.LIBSSH2_KNOWNHOST_CHECK_MATCH) /\
          knownhost.mismatch r =
            (rc =? knownhost.LIBSSH2_KNOWNHOST_CHECK_MISMATCH)
            && is_some found /\
          knownhost.not_found r =
            (rc =? knownhost.LIBSSH2_KNOWNHOST_CHECK_NOTFOUND)
            || (rc =? knownhost.LIBSSH2_KNOWNHOST_CHECK_MISMATCH)
               && negb (is_some found)
    | Throw e =>
        knownhost.check_answer lib w host key type = Throw e \/
        exists expr, e = assertion_failed expr
    end.
Proof.
  split.
  - intros [[p] [q] m].
    unfold knownhost.match_, knownhost.mismatch, knownhost.not_found,
      knownhost.equal. cbn.
    destruct m, (knownhost.pointer_eqb p q); cbn; tauto.
  - eexists. split; [reflexivity |].
    unfold knownhost.find, bind, lift, throw, knownhost.check.
    set (type := if base64_key
                 then Z.lor knownhost.LIBSSH2_KNOWNHOST_TYPE_PLAIN
                        knownhost.LIBSSH2_KNOWNHOST_KEYENC_BASE64
                 else Z.lor knownhost.LIBSSH2_KNOWNHOST_TYPE_PLAIN
                        knownhost.LIBSSH2_KNOWNHOST_KEYENC_RAW).
    replace (Z.lor knownhost.LIBSSH2_KNOWNHOST_TYPE_PLAIN
               (if base64_key
                then knownhost.LIBSSH2_KNOWNHOST_KEYENC_BASE64
                else knownhost.LIBSSH2_KNOWNHOST_KEYENC_RAW))
      with type by (unfold type; destruct base64_key; reflexivity).
    destruct (knownhost.check_answer lib w host key type)
      as [[rc found] | e] eqn:E; cbn.
    + destruct (Z.eqb_spec rc knownhost.LIBSSH2_KNOWNHOST_CHECK_MATCH)
        as [-> | Hm].
      * destruct found as [a |]; cbn.
        -- split; [reflexivity |]. exists 0, (Some a). repeat split.
        -- split; [reflexivity |]. right. eexists. reflexivity.
      * destruct (Z.eqb_spec rc knownhost.LIBSSH2_KNOWNHOST_CHECK_MISMATCH)
          as [-> | Hmm].
        -- destruct found as [a |]; cbn;
             (split; [reflexivity |]); eexists 1, _; repeat split.
        -- destruct (Z.eqb_spec rc knownhost.LIBSSH2_KNOWNHOST_CHECK_NOTFOUND)
             as [-> | Hnf]; cbn.
           ++ split; [reflexivity |]. exists 2, found. repeat split.
           ++ split; [reflexivity |]. right. eexists. reflexivity.
    + split; [reflexivity |]. now left.
Qed.

(** ** Known hosts: erasing and updating *)

(** X18.  At the end of the collection an iterator can be neither
    incremented nor dereferenced: both throw [std::logic_error].  So
    erasing the end iterator, and updating the host of a search that found
    nothing, throw it before libssh2 is called: nothing is deleted and
    nothing is added. *)
Theorem nothing_is_erased_at_the_end (lib : knownhost.library)
    (host : string) (k : knownhost.host_key)
    (entry : knownhost.knownhost_search_result) (w : knownhost.world) :
  knownhost.it_pos (knownhost.m_host entry) = None ->
  knownhost.increment lib (knownhost.m_host entry) w =
    (Throw (logic_error "Can't increment past the end of a collection"), w) /\
  knownhost.dereference (knownhost.m_host entry) =
    Throw (logic_error "Can't dereference the end of a collection") /\
  knownhost.erase lib (knownhost.m_host entry) w =
    (Throw (logic_error "Can't increment past the end of a collection"), w) /\
  knownhost.update lib host k entry w =
    (Throw (logic_error "Can't increment past the end of a collection"), w).
Proof.
  intros Hend.
  unfold knownhost.update, knownhost.erase, knownhost.increment,
    knownhost.dereference, bind, throw.
  rewrite Hend. repeat split.
Qed.

Lemma nothing_is_erased_at_the_end_witness :
  let entry :=
    {| knownhost.m_host := knownhost.end_; knownhost.m_end := knownhost.end_;
       knownhost.m_match := false |} in
  let k :=
    {| knownhost.hk_key := "AAAA"; knownhost.hk_algorithm := knownhost.ssh_rsa;
       knownhost.hk_is_base64 := true |} in
  knownhost.increment one_entry_library (knownhost.m_host entry) [] =
    (Throw (logic_error "Can't increment past the end of a collection"), []) /\
  knownhost.dereference (knownhost.m_host entry) =
    Throw (logic_error "Can't dereference the end of a collection") /\
  knownhost.erase one_entry_library (knownhost.m_host entry) [] =
    (Throw (logic_error "Can't increment past the end of a collection"), []) /\
  knownhost.update one_entry_library "example.com" k entry [] =
    (Throw (logic_error "Can't increment past the end of a collection"), []).
Proof.
  intros entry k.
  apply (nothing_is_erased_at_the_end one_entry_library "example.com" k entry
           []).
  reflexivity.
Defined.

(** X19.  [update] deletes before it adds, and looks at the algorithm of
    the new key only when it adds: with a key of unknown algorithm, an
    update of an entry that was found deletes the entry and then throws
    [std::invalid_argument], leaving the host without an entry. *)
Theorem update_with_unknown_algorithm_only_deletes
    (lib : knownhost.library) (host : string) (k : knownhost.host_key)
    (entry : knownhost.knownhost_search_result) (w : knownhost.world)
    (a : nat) (rc : Z) (next : knownhost.pointer) :
  knownhost.it_pos (knownhost.m_host entry) = Some a ->
  knownhost.get_answer lib w (Some a) = Return (rc, next) ->
  rc = 0 \/ rc = 1 /\ next = None ->
  knownhost.del_answer lib
    (w ++ [knownhost.libssh2_knownhost_get (Some a)])%list (Some a) =
    Return tt ->
  knownhost.hk_algorithm k = knownhost.unknown ->
  knownhost.update lib host k entry w =
    (Throw (invalid_argument "Unrecognised key algorithm"),
     (w ++ [knownhost.libssh2_knownhost_get (Some a);
            knownhost.libssh2_knownhost_del (Some a)])%list).
Proof.
  intros Hpos Hget Hrc Hdel Halg.
  unfold knownhost.update, knownhost.erase, knownhost.increment,
    knownhost.next_host, knownhost.get, knownhost.del,
    knownhost.add_host_key, knownhost.add, bind, lift, ret, throw.
  rewrite Hpos, Hget, Halg.
  destruct Hrc as [-> | [-> ->]]; cbn; rewrite Hdel; cbn;
    rewrite <- app_assoc; reflexivity.
Qed.

Lemma update_with_unknown_algorithm_only_deletes_witness :
  knownhost.update one_entry_library "example.com"
    {| knownhost.hk_key := "AAAA"; knownhost.hk_algorithm := knownhost.unknown;
       knownhost.hk_is_base64 := true |}
    {| knownhost.m_host := {| knownhost.it_pos := Some 1%nat |};
       knownhost.m_end := knownhost.end_; knownhost.m_match := false |} [] =
    (Throw (invalid_argument "Unrecognised key algorithm"),
     ([] ++ [knownhost.libssh2_knownhost_get (Some 1%nat);
             knownhost.libssh2_knownhost_del (Some 1%nat)])%list).
Proof.
  apply (update_with_unknown_algorithm_only_deletes one_entry_library
           "example.com" _ _ [] 1%nat 1 None).
  - reflexivity.
  - reflexivity.
  - right. split; reflexivity.
  - reflexivity.
  - reflexivity.
Defined.

(** ** SFTP error messages *)

Lemma sftp_part_of_unknown_code (error : Z) :
  error < 0 \/ 21 < error ->
  sftp_part_of_error_message error = "Unrecognised SFTP error value".
Proof.
  intros Hout. unfold sftp_part_of_error_message.
  repeat match goal with
    | |- context [error =? ?n] => destruct (Z.eqb_spec error n); [lia |]
    end.
  reflexivity.
Qed.

Lemma known_code_cases (error : Z) :
  0 <= error <= 21 ->
  In error [0; 1; 2; 3; 4; 5; 6; 7; 8; 9; 10; 11; 12; 13; 14; 15; 16; 17; 18;
            19; 20; 21].
Proof.
  intros H. cbn. lia.
Qed.

(** X20.  The part of the message that names the SFTP error tells the
    codes 0 to 21 apart: two codes with the same part are the same code, or
    are both outside the known ones.  The part of a known code starts with
    the separator and FX_; that of any other code is the one text for
    unrecognised values, which has no separator. *)
Theorem sftp_error_parts_tell_codes_apart :
  (forall a b,
     sftp_part_of_error_message a = sftp_part_of_error_message b ->
     a = b \/ (a < 0 \/ 21 < a) /\ (b < 0 \/ 21 < b)) /\
  (forall a,
     if (0 <=? a) && (a <=? 21)
     then prefix ": FX_" (sftp_part_of_error_message a) = true
     else sftp_part_of_error_message a = "Unrecognised SFTP error value").
Proof.
  split.
  - intros a b E.
    destruct (Z_lt_le_dec a 0) as [Ha | Ha];
      [| destruct (Z_lt_le_dec 21 a) as [Ha' | Ha']].
    1, 2: rewrite (sftp_part_of_unknown_code a) in E by lia.
    3: pose proof (known_code_cases a ltac:(lia)) as Hka.
    all: destruct (Z_lt_le_dec b 0) as [Hb | Hb];
      [| destruct (Z_lt_le_dec 21 b) as [Hb' | Hb']].
    all: try (right; lia).
    all: try rewrite (sftp_part_of_unknown_code b) in E by lia.
    all: try pose proof (known_code_cases b ltac:(lia)) as Hkb.
    + cbn in Hkb. clear - E Hkb Ha.
      repeat (destruct Hkb as [<- | Hkb]; [discriminate E |]).
      contradiction.
    + cbn in Hkb. clear - E Hkb Ha.
      repeat (destruct Hkb as [<- | Hkb]; [discriminate E |]).
      contradiction.
    + cbn in Hka. clear - E Hka.
      repeat (destruct Hka as [<- | Hka]; [discriminate E |]).
      contradiction.
    + cbn in Hka. clear - E Hka.
      repeat (destruct Hka as [<- | Hka]; [discriminate E |]).
      contradiction.
    + left. cbn in Hka, Hkb. clear - E Hka Hkb.
      repeat (destruct Hka as [<- | Hka];
              [repeat (destruct Hkb as [<- | Hkb];
                       [first [reflexivity | discriminate E] |]);
               contradiction |]).
      contradiction.
  - intros a.
    destruct (Z.leb_spec 0 a) as [H0 | H0];
      [destruct (Z.leb_spec a 21) as [H21 | H21] |]; cbn [andb].
    + pose proof (known_code_cases a ltac:(lia)) as Hka. cbn in Hka.
      repeat (destruct Hka as [<- | Hka]; [reflexivity |]).
      contradiction.
    + apply sftp_part_of_unknown_code. lia.
    + apply sftp_part_of_unknown_code. lia.
Qed.

(** ** The directory iterator *)

Lemma buffer_after_length (n : nat) (l : list ascii) :
  List.length (directory.buffer_after n l) = n.
Proof.
  unfold directory.buffer_after.
  rewrite length_firstn, length_app, repeat_length. lia.
Qed.

Lemma string_of_list_ascii_length (l : list ascii) :
  String.length (string_of_list_ascii l) = List.length l.
Proof.
  induction l as [| x r IH]; [reflexivity |]. cbn. rewrite IH. reflexivity.
Qed.

Lemma c_string_terminated (n : nat) :
  forall (l : list ascii) (p : nat),
    (S n <= List.length l + p)%nat ->
    directory.c_string
      (directory.store (firstn (S n) (l ++ repeat zero p)) n zero) =
    directory.c_string (firstn n l).
Proof.
  induction n as [| n IH]; intros l p Hlen.
  - destruct l as [| x l]; [destruct p as [| p]; [cbn in Hlen; lia |] |];
      reflexivity.
  - destruct l as [| x l].
    + destruct p as [| p]; [cbn in Hlen; lia |]. reflexivity.
    + change (firstn (S (S n)) ((x :: l) ++ repeat zero p))
        with (x :: firstn (S n) (l ++ repeat zero p)).
      change (firstn (S n) (x :: l)) with (x :: firstn n l).
      cbn [directory.store directory.c_string].
      rewrite IH by (cbn in Hlen; lia). reflexivity.
Qed.

Lemma c_string_length (l : list ascii) :
  (String.length (directory.c_string l) <= List.length l)%nat.
Proof.
  induction l as [| x r IH]; cbn; [lia |].
  destruct (Ascii.eqb x zero); cbn; lia.
Qed.

Lemma c_string_has_no_zero (l : list ascii) :
  knownhost.find_first zero (directory.c_string l) = None.
Proof.
  induction l as [| x r IH]; cbn; [reflexivity |].
  destruct (Ascii.eqb x zero) eqn:E; cbn; [reflexivity |].
  rewrite E, IH. reflexivity.
Qed.

(** X21.  When [libssh2_sftp_readdir_ex] returns a positive count, the
    iterator keeps its handle and takes the attributes; its file name is
    the first [rc] bytes of the 1024-byte buffer, zero bytes included, and
    never more than 1024 bytes; its long entry is what the library wrote up
    to the first zero byte, cut after 1023 bytes when there is none, so it
    has at most 1023 characters and no zero byte. *)
Theorem next_file_respects_its_buffers (srv : sftp_server)
    (dir : directory.listing) (it : directory.directory_iterator)
    (h : handle) (w : directory.dworld) (rc : Z) (name long : list ascii)
    (attrs : directory.attributes) :
  directory.readdir_answer dir (List.length (directory.readdirs w)) h =
    (rc, name, long, attrs) ->
  0 < rc ->
  exists it',
    directory.next_file srv dir it h w =
      (directory.Ok it',
       {| directory.files := directory.files w;
          directory.readdirs := directory.readdirs w ++ [h] |}) /\
    directory.m_handle it' = Some h /\
    directory.m_directory it' = directory.m_directory it /\
    directory.m_attributes it' = attrs /\
    directory.m_file_name it' =
      string_of_list_ascii
        (firstn (Nat.min (Z.to_nat rc) 1024) (name ++ repeat zero 1024)) /\
    String.length (directory.m_file_name it') =
      Nat.min (Z.to_nat rc) 1024 /\
    directory.m_long_entry it' = directory.c_string (firstn 1023 long) /\
    (String.length (directory.m_long_entry it') <= 1023)%nat /\
    knownhost.find_first zero (directory.m_long_entry it') = None.
Proof.
  intros Hanswer Hrc. unfold directory.next_file. rewrite Hanswer.
  destruct (Z.eqb_spec rc 0) as [E | _]; [lia |].
  destruct (Z.ltb_spec rc 0) as [E | _]; [lia |].
  eexists. split; [reflexivity |].
  cbn [directory.m_handle directory.m_directory directory.m_attributes
       directory.m_file_name directory.m_long_entry].
  rewrite !buffer_after_length.
  assert (Hlong :
    directory.c_string
      (directory.store (directory.buffer_after 1024 long) (1024 - 1) zero) =
    directory.c_string (firstn 1023 long)).
  { unfold directory.buffer_after.
    change (1024 - 1)%nat with 1023%nat.
    change 1024%nat with (S 1023) at 1.
    apply c_string_terminated. lia. }
  assert (Hname :
    directory.string_of_bytes (directory.buffer_after 1024 name)
      (Nat.min (Z.to_nat rc) 1024) =
    string_of_list_ascii
      (firstn (Nat.min (Z.to_nat rc) 1024) (name ++ repeat zero 1024))).
  { unfold directory.string_of_bytes, directory.buffer_after.
    rewrite firstn_firstn. f_equal. f_equal. lia. }
  rewrite Hlong, Hname.
  repeat split.
  - rewrite string_of_list_ascii_length, length_firstn, length_app,
      repeat_length. lia.
  - etransitivity; [apply c_string_length |].
    rewrite length_firstn. lia.
  - apply c_string_has_no_zero.
Qed.

Lemma next_file_respects_its_buffers_witness :
  exists it',
    directory.next_file short_server one_file_listing directory.end_marker
      7%nat fresh_dworld =
      (directory.Ok it',
       {| directory.files := directory.files fresh_dworld;
          directory.readdirs := directory.readdirs fresh_dworld ++ [7%nat] |})
    /\
    directory.m_handle it' = Some 7%nat /\
    directory.m_directory it' = directory.m_directory directory.end_marker /\
    directory.m_attributes it' =
      {| directory.attr_flags := 15; directory.attr_filesize := 12;
         directory.attr_uid := 1000; directory.attr_gid := 1000;
         directory.attr_permissions := 33188;
         directory.attr_atime := 0; directory.attr_mtime := 0 |} /\
    directory.m_file_name it' =
      string_of_list_ascii
        (firstn (Nat.min (Z.to_nat 5) 1024)
           (list_ascii_of_string "a.txt" ++ repeat zero 1024)) /\
    String.length (directory.m_file_name it') = Nat.min (Z.to_nat 5) 1024 /\
    directory.m_long_entry it' =
      directory.c_string
        (firstn 1023
           (list_ascii_of_string "-rw-r--r-- 1 u g 12 Jan 1 00:00 a.txt")) /\
    (String.length (directory.m_long_entry it') <= 1023)%nat /\
    knownhost.find_first zero (directory.m_long_entry it') = None.
Proof.
  apply (next_file_respects_its_buffers short_server one_file_listing
           directory.end_marker 7%nat fresh_dworld 5).
  - reflexivity.
  - lia.
Defined.

(** X22.  When [libssh2_sftp_readdir_ex] returns zero, incrementing
    gives an iterator that equals the end-of-directory marker and keeps the
    last file's name; at that iterator a further increment throws
    [std::range_error] and a dereference throws [std::logic_error], both
    without calling libssh2. *)
Theorem end_of_directory_is_the_end_marker (srv : sftp_server)
    (dir : directory.listing) (it : directory.directory_iterator)
    (h : handle) (w : directory.dworld) :
  directory.m_handle it = Some h ->
  fst (fst (fst (directory.readdir_answer dir
                   (List.length (directory.readdirs w)) h))) = 0 ->
  exists it' w',
    directory.increment srv dir it w = (directory.Ok it', w') /\
    directory.readdirs w' = (directory.readdirs w ++ [h])%list /\
    directory.equal it' directory.end_marker = true /\
    directory.m_file_name it' = directory.m_file_name it /\
    directory.increment srv dir it' w' =
      (directory.Raise (directory.range_error "No more files"), w') /\
    directory.dereference it' =
      directory.Raise
        (directory.logic_error "Can't dereference the end of a collection").
Proof.
  intros Hh Hrc. unfold directory.increment at 1. rewrite Hh.
  unfold directory.next_file.
  destruct (directory.readdir_answer dir
              (List.length (directory.readdirs w)) h)
    as [[[rc name] long] attrs].
  cbn in Hrc. subst rc. cbn.
  do 2 eexists. repeat split.
Qed.

(** X23.  A new iterator asks libssh2 to open the path as a directory,
    with no flags and no mode, and reads once.  When the directory is
    empty it already equals the end-of-directory marker; when the open is
    refused nothing is read and the failure is that of the open. *)
Theorem new_iterator_opens_and_reads_once (srv : sftp_server)
    (dir : directory.listing) (path : string) (w : directory.dworld) :
  calls (directory.files (snd (directory.open_iterator srv dir path w))) =
    (calls (directory.files w) ++
     [libssh2_sftp_open_ex path 0 0 directory.LIBSSH2_SFTP_OPENDIR])%list /\
  match open_ex_answer srv path 0 0 directory.LIBSSH2_SFTP_OPENDIR with
  | None =>
      directory.readdirs (snd (directory.open_iterator srv dir path w)) =
        directory.readdirs w /\
      exists e,
        fst (directory.open_iterator srv dir path w) =
          directory.Raise (directory.open_failed e)
  | Some h =>
      directory.readdirs (snd (directory.open_iterator srv dir path w)) =
        (directory.readdirs w ++ [h])%list /\
      (fst (fst (fst (directory.readdir_answer dir
                        (List.length (directory.readdirs w)) h))) = 0 ->
       exists it,
         fst (directory.open_iterator srv dir path w) = directory.Ok it /\
         directory.equal it directory.end_marker = true)
  end.
Proof.
  unfold directory.open_iterator, directory.open_directory, sftp.open.
  destruct (open_ex_answer srv path 0 0 directory.LIBSSH2_SFTP_OPENDIR)
    as [h |]; [| rewrite throw_last_error_run]; cbn.
  - unfold directory.next_file. cbn.
    destruct (directory.readdir_answer dir
                (List.length (directory.readdirs w)) h)
      as [[[rc name] long] attrs].
    destruct (rc =? 0) eqn:E0; [| destruct (rc <? 0)]; cbn;
      (split; [reflexivity |]); (split; [reflexivity |]);
      intros Hrc; subst rc; try discriminate.
    eexists. split; reflexivity.
  - split; [reflexivity |]. split; [reflexivity |]. eexists. reflexivity.
Qed.

(** The second increment over [one_file_listing]. *)
Lemma end_of_directory_is_the_end_marker_witness :
  let it :=
    {| directory.m_directory := "/tmp"; directory.m_handle := Some 7%nat;
       directory.m_file_name := "a.txt"; directory.m_long_entry := "";
       directory.m_attributes := directory.no_attributes |} in
  let w :=
    {| directory.files := fresh_world; directory.readdirs := [7%nat] |} in
  exists it' w',
    directory.increment short_server one_file_listing it w =
      (directory.Ok it', w') /\
    directory.readdirs w' = (directory.readdirs w ++ [7%nat])%list /\
    directory.equal it' directory.end_marker = true /\
    directory.m_file_name it' = directory.m_file_name it /\
    directory.increment short_server one_file_listing it' w' =
      (directory.Raise (directory.range_error "No more files"), w') /\
    directory.dereference it' =
      directory.Raise
        (directory.logic_error "Can't dereference the end of a collection").
Proof.
  intros it w.
  apply (end_of_directory_is_the_end_marker short_server one_file_listing it
           7%nat w); reflexivity.
Defined.
